(** * OCR pipeline of backend/ocr/processor.py: a shallow embedding

    The development follows the module top-down: Python values and
    exceptions, the text normalizer [clean_ocr_text], the availability
    probe, the variant generator [preprocess_image], the quality
    evaluator [evaluate_preprocessing_quality], the layout extractor
    [extract_text_with_layout] and the language cascade
    [detect_ocr_language]; then the region merging
    [merge_text_regions], the MSER detection [detect_mser_regions], the
    image processor [process_image], and the language tables of
    [OCRConfig] and of [TranslationConfig] in utils/translation.py.

    External libraries (OpenCV, pytesseract, PIL, unicodedata, the
    optional oracle) are not code of the repository: they appear as
    fields of a [World] record or as section variables, and every
    theorem quantifies over them. *)

From Stdlib Require Import List ZArith NArith QArith Qabs Bool String Ascii Lia Lqa Arith.
Import ListNotations.
Close Scope Q_scope.

(** ** Python values *)

(** A Python [str] holding recognised text is a sequence of Unicode code
    points. Language codes and engine options are ASCII and use [string]. *)
Definition codepoint := N.
Definition pystr := list codepoint.

(** The exception classes the module raises or catches. Every one of them
    is a subclass of [Exception], so [except Exception] catches them all. *)
Inductive exn : Set :=
| ValueError
| RuntimeError
| FileNotFoundError
| KeyError
| ImportError
| Cv2Error
| TesseractError
| OtherError.

Inductive res (A : Type) : Type :=
| Ok (a : A)
| Raise (e : exn).
Arguments Ok {A} a.
Arguments Raise {A} e.

Definition bind {A B : Type} (m : res A) (k : A -> res B) : res B :=
  match m with
  | Ok a => k a
  | Raise e => Raise e
  end.

Notation "x <- m ;; k" := (bind m (fun x => k))
  (at level 61, m at next level, right associativity).
Notation "' p <- m ;; k" := (bind m (fun p => k))
  (at level 61, p pattern, m at next level, right associativity).

(** [str.isspace] for one code point, the class used by [str.strip] and by
    [\s] in a [str] pattern (CPython's [_PyUnicode_IsWhitespace]). *)
Definition isspace (c : codepoint) : bool :=
  ((9 <=? c) && (c <=? 13) || (28 <=? c) && (c <=? 32)
   || (c =? 133) || (c =? 160) || (c =? 5760)
   || (8192 <=? c) && (c <=? 8202)
   || (c =? 8232) || (c =? 8233) || (c =? 8239) || (c =? 8287)
   || (c =? 12288))%N.

Fixpoint lstrip (s : pystr) : pystr :=
  match s with
  | [] => []
  | c :: t => if isspace c then lstrip t else s
  end.

Fixpoint rstrip (s : pystr) : pystr :=
  match s with
  | [] => []
  | c :: t =>
      match rstrip t with
      | [] => if isspace c then [] else [c]
      | r => c :: r
      end
  end.

(** [s.strip()] *)
Definition strip (s : pystr) : pystr := rstrip (lstrip s).

(** [s.split(sep)] for a one-character separator: never the empty list. *)
Fixpoint split_on (sep : codepoint) (s : pystr) : list pystr :=
  match s with
  | [] => [[]]
  | c :: t =>
      if (c =? sep)%N then [] :: split_on sep t
      else match split_on sep t with
           | l :: ls => (c :: l) :: ls
           | [] => [[c]]
           end
  end.

(** [sep.join(parts)] *)
Fixpoint join (sep : pystr) (parts : list pystr) : pystr :=
  match parts with
  | [] => []
  | l :: ls =>
      match ls with
      | [] => l
      | _ :: _ => l ++ sep ++ join sep ls
      end
  end.

(** [s.replace(old, new)] for a one-character [old]. *)
Definition replace1 (old : codepoint) (new : pystr) (s : pystr) : pystr :=
  flat_map (fun c => if (c =? old)%N then new else [c]) s.

(** ** The text normalizer *)

Module Normalizer.

(** [re.sub(r'\r\n', '\n', text)]: leftmost, non-overlapping. *)
Fixpoint sub_crlf (s : pystr) : pystr :=
  match s with
  | [] => []
  | c :: t =>
      match t with
      | d :: r =>
          if ((c =? 13) && (d =? 10))%N then 10%N :: sub_crlf r
          else c :: sub_crlf t
      | [] => [c]
      end
  end.

(** [re.sub(r'\s{2,}', ' ', text)]: every maximal run of two or more
    whitespace characters becomes one space. [in_run] is set while the
    scan is inside a run whose replacement has already been written. *)
Fixpoint collapse_from (in_run : bool) (s : pystr) : pystr :=
  match s with
  | [] => []
  | c :: t =>
      if isspace c then
        if in_run then collapse_from true t
        else match t with
             | d :: _ =>
                 if isspace d then 32%N :: collapse_from true t
                 else c :: collapse_from false t
             | [] => [c]
             end
      else c :: collapse_from false t
  end.

Definition collapse_ws (s : pystr) : pystr := collapse_from false s.

(** The [replacements] dict, in insertion order. The last seven entries
    map a compatibility jamo to itself. *)
Definition replacements : list (codepoint * pystr) :=
  [ (65292, [44]); (65294, [46]); (65306, [58]); (65307, [59]);
    (65281, [33]); (65311, [63]); (8216, [39]); (8217, [39]);
    (8220, [34]); (8221, [34]); (8211, [45]); (8212, [45]);
    (160, [32]); (8230, [46; 46; 46]); (8228, [46]); (183, [8226]);
    (732, [126]);
    (12593, [12593]); (12596, [12596]); (12599, [12599]);
    (12623, [12623]); (12627, [12627]); (12631, [12631]);
    (12636, [12636]) ]%N.

(** One turn of [for old, new in replacements.items()]. *)
Definition replace_step (text : pystr) (entry : codepoint * pystr) : pystr :=
  let (old, new) := entry in
  if existsb (N.eqb old) text then replace1 old new text else text.

Definition apply_replacements (text : pystr) : pystr :=
  fold_left replace_step replacements text.

(** The loop over [text.split('\n')] and the final join. *)
Definition clean_lines (text : pystr) : pystr :=
  join [10%N]
       (filter (fun line => negb (match line with [] => true | _ => false end))
               (map strip (split_on 10%N text))).

(** Everything [clean_ocr_text] does after the NFC normalisation. *)
Definition after_nfc (text : pystr) : pystr :=
  clean_lines (apply_replacements (collapse_ws (strip (sub_crlf text)))).

Section WithNFC.

(** [unicodedata.normalize('NFC', _)] *)
Variable nfc : pystr -> pystr.

Definition clean_ocr_text (text : pystr) : pystr :=
  match text with
  | [] => []
  | _ :: _ => after_nfc (nfc text)
  end.

End WithNFC.

End Normalizer.

(** ** Language codes, configuration and the outside world *)

Module OCRConfig.
Local Open Scope string_scope.

Definition MAX_IMAGE_DIMENSION : Z := 2000.
Definition CONFIDENCE_THRESHOLD : Z := 30.
Definition DEFAULT_LANG : string := "kor+eng".
Definition DEFAULT_CONFIG : string :=
  "--oem 1 --psm 3 -c preserve_interword_spaces=1".
Definition MIN_TEXT_LENGTH : Z := 10.
Definition KOREAN_RATIO_WEIGHT : Q := 2 # 1.

Definition LANGDETECT_TO_TESSERACT : list (string * string) :=
  [ ("ko", "kor"); ("en", "eng"); ("ja", "jpn"); ("zh-CN", "chi_sim");
    ("zh-TW", "chi_tra"); ("de", "deu"); ("fr", "fra"); ("es", "spa");
    ("ru", "rus"); ("it", "ita"); ("pt", "por"); ("ar", "ara");
    ("hi", "hin"); ("vi", "vie"); ("th", "tha") ].

(** [d.get(key)] on a dict written as an association list. *)
Fixpoint dict_get (d : list (string * string)) (key : string) : option string :=
  match d with
  | [] => None
  | (k, v) :: rest => if String.eqb k key then Some v else dict_get rest key
  end.

(** [sub in s] for two [str]. *)
Fixpoint py_in (sub s : string) : bool :=
  match s with
  | EmptyString => String.prefix sub EmptyString
  | String _ rest => String.prefix sub s || py_in sub rest
  end.

(** [s.split('+')] *)
Fixpoint split_plus (s : string) : list string :=
  match s with
  | EmptyString => [EmptyString]
  | String c rest =>
      if Ascii.eqb c "+"%char then EmptyString :: split_plus rest
      else match split_plus rest with
           | l :: ls => String c l :: ls
           | [] => [String c EmptyString]
           end
  end.

Definition get_optimal_psm (lang_code : string) : Z :=
  let lang_to_psm :=
    [ ("kor", 6%Z); ("eng", 3%Z); ("jpn", 6%Z); ("chi_sim", 6%Z);
      ("chi_tra", 6%Z) ] in
  let lookup := fix lookup (d : list (string * Z)) (k : string) : Z :=
    match d with
    | [] => 3%Z
    | (k', v) :: rest => if String.eqb k' k then v else lookup rest k
    end in
  if py_in "+" lang_code
  then lookup lang_to_psm (hd EmptyString (split_plus lang_code))
  else lookup lang_to_psm lang_code.

End OCRConfig.

(** An image is a raster, grayscale (2-D) or colour (3-D). *)
Inductive image : Type :=
| Gray (px : list (list Z))
| Color (px : list (list (Z * Z * Z))).

(** [img.shape[:2]] *)
Definition shape2 (img : image) : Z * Z :=
  match img with
  | Gray px => (Z.of_nat (List.length px), Z.of_nat (List.length (hd [] px)))
  | Color px => (Z.of_nat (List.length px), Z.of_nat (List.length (hd [] px)))
  end.

(** [len(img.shape) == 3] *)
Definition is_color (img : image) : bool :=
  match img with Color _ => true | Gray _ => false end.

(** The OpenCV, numpy and PIL calls of the module that take one image. *)
Inductive cv_op : Type :=
| CvtBGR2GRAY
| CvtBGR2HSV
| ResizeArea (new_width new_height : Z)
| GaussianBlur3
| ThresholdOtsu
| ThresholdOtsuInv
| AdaptiveGaussian
| EqualizeHist
| ClaheApply
| Filter2DSharpen
| FastNlMeans (h template search : Z)
| MorphOpen1
| MorphClose1
| Dilate1
| InRangeBlack
| InRangeWhite
| BitwiseNot
| WhiteLike
| WarpAffine (angle : Q)
| PilEnhance.

(** The calls that take two images. *)
Inductive cv_op2 : Type :=
| BitwiseOr
| BitwiseAndMask
| CvAdd.

(** What a recognition call reads: a file named by its path or an image
    handed over in memory (written to a temporary file first). *)
Inductive source : Type :=
| FromPath (path : string)
| FromImage (img : image).

(** One cell of [ocr_data['conf']] in [Output.DICT] form: pytesseract
    yields an [int], a [float] or the raw [str] of the TSV cell. *)
Inductive conf_cell : Type :=
| ConfInt (z : Z)
| ConfFloat (q : Q)
| ConfStr (s : string).

(** One row of the [Output.DATAFRAME] table; [tk_text = None] is NaN. *)
Record token : Type := {
  tk_text : option pystr;
  tk_conf : Q;
  tk_left : Z;
  tk_top : Z;
  tk_width : Z;
  tk_height : Z;
  tk_block_num : Z;
  tk_line_num : Z
}.

Record frame : Type := {
  has_text : bool;
  has_block_num : bool;
  has_conf : bool;
  has_line_num : bool;
  rows : list token
}.

(** The dict returned by the oracle and by [detect_language]; a field is
    [None] when the key is absent. *)
Record reply : Type := {
  r_success : option bool;
  r_language : option string;
  r_language_name : option string
}.

(** Everything outside the repository that the module calls. A missing
    engine is [tesseract_found = false] ([TesseractNotFoundError]); a
    failing [--list-langs] is [list_langs = None] ([SubprocessError] or
    [TimeoutExpired]). The world is a fixed function of its arguments, so
    the [lru_cache] on the probe is not visible. *)
Record World : Type := {
  path_exists : string -> bool;
  imread : string -> res (option image);
  imwrite : string -> image -> res unit;
  remove_file : string -> res unit;
  cv : cv_op -> image -> res image;
  cv2 : cv_op2 -> image -> image -> res image;
  nonzero_count : image -> nat;
  min_area_angle : image -> res Q;
  np_std : image -> Q;
  tesseract_found : bool;
  list_langs : option string;
  image_to_string : source -> string -> string -> res pystr;
  image_to_data_dict : source -> string -> string -> res (option (list conf_cell));
  image_to_data_frame : source -> string -> string -> res frame;
  int_of_str : string -> option Z;
  oracle : option (string -> res (option reply));
  detect_language : option (pystr -> res (option reply))
}.

(** ** Availability probe *)

Module Probe.

Definition check_tesseract_availability (w : World) (lang : string)
  : bool * bool :=
  if tesseract_found w then
    match list_langs w with
    | Some output =>
        let langs := OCRConfig.split_plus lang in
        (true, forallb (fun l => OCRConfig.py_in l output) langs)
    | None => (true, false)
    end
  else (false, false).

End Probe.

(** ** Preprocessing variant generator *)

Module Variants.

Section WithWorld.
Variable w : World.

(** [try: ... return result / except Exception: return img] *)
Definition or_input (img : image) (body : res image) : image :=
  match body with
  | Ok r => r
  | Raise _ => img
  end.

Definition segment_body (img : image) : res image :=
  hsv <- cv w CvtBGR2HSV img ;;
  mask1 <- cv w InRangeBlack hsv ;;
  mask2 <- cv w InRangeWhite hsv ;;
  combined_mask <- cv2 w BitwiseOr mask1 mask2 ;;
  combined_mask <- cv w MorphOpen1 combined_mask ;;
  combined_mask <- cv w MorphClose1 combined_mask ;;
  segmented_img <- cv2 w BitwiseAndMask img combined_mask ;;
  white_bg <- cv w WhiteLike img ;;
  mask_inv <- cv w BitwiseNot combined_mask ;;
  background <- cv2 w BitwiseAndMask white_bg mask_inv ;;
  cv2 w CvAdd segmented_img background.

Definition segment_text_by_color (img : image) : image :=
  or_input img (segment_body img).

Definition to_gray (img : image) : res image :=
  if is_color img then cv w CvtBGR2GRAY img else Ok img.

Definition Qltb (a b : Q) : bool := negb (Qle_bool b a).

Definition deskew_body (img : image) : res image :=
  gray <- to_gray img ;;
  thresh <- cv w ThresholdOtsuInv gray ;;
  if Nat.eqb (nonzero_count w thresh) 0 then Ok img
  else
    angle <- min_area_angle w thresh ;;
    let angle := if Qltb angle (-45 # 1) then ((90 # 1) + angle)%Q else angle in
    if Qle_bool (Qabs angle) (1 # 2) then Ok img
    else cv w (WarpAffine angle) img.

Definition deskew_image (img : image) : image :=
  or_input img (deskew_body img).

Definition remove_noise_body (img : image) : res image :=
  gray <- to_gray img ;;
  blurred <- cv w GaussianBlur3 gray ;;
  binary <- cv w ThresholdOtsu blurred ;;
  denoised <- cv w (FastNlMeans 15 7 21) binary ;;
  opening <- cv w MorphOpen1 denoised ;;
  cv w Dilate1 opening.

Definition remove_noise_improved (img : image) : image :=
  or_input img (remove_noise_body img).

Definition enhance_image_quality (img : image) : image :=
  or_input img (cv w PilEnhance img).

(** The [try] block of [preprocess_image]. Sizes are computed in exact
    arithmetic ([int(width * (2000 / max))] in the source). *)
Definition preprocess_body (image_path : string) : res (list image) :=
  if negb (path_exists w image_path) then Raise FileNotFoundError
  else
    loaded <- imread w image_path ;;
    img <- match loaded with
           | Some i => Ok i
           | None => Raise ValueError
           end ;;
    let '(height, width) := shape2 img in
    img <- (if (OCRConfig.MAX_IMAGE_DIMENSION <? Z.max height width)%Z
            then cv w (ResizeArea
                         (width * OCRConfig.MAX_IMAGE_DIMENSION / Z.max height width)
                         (height * OCRConfig.MAX_IMAGE_DIMENSION / Z.max height width))
                    img
            else Ok img) ;;
    gray <- cv w CvtBGR2GRAY img ;;
    gray_blur <- cv w GaussianBlur3 gray ;;
    binary <- cv w ThresholdOtsu gray_blur ;;
    let segmented := segment_text_by_color img in
    segmented_gray <- cv w CvtBGR2GRAY segmented ;;
    segmented_binary <- cv w ThresholdOtsu segmented_gray ;;
    adaptive_binary <- cv w AdaptiveGaussian gray ;;
    enhanced <- cv w EqualizeHist gray ;;
    enhanced_binary <- cv w ThresholdOtsu enhanced ;;
    clahe_img <- cv w ClaheApply gray ;;
    clahe_binary <- cv w ThresholdOtsu clahe_img ;;
    sharpened <- cv w Filter2DSharpen gray ;;
    sharp_binary <- cv w ThresholdOtsu sharpened ;;
    denoised <- cv w (FastNlMeans 10 7 21) gray ;;
    denoised_binary <- cv w ThresholdOtsu denoised ;;
    opening <- cv w MorphOpen1 binary ;;
    let deskewed := deskew_image gray in
    deskewed_binary <- cv w ThresholdOtsu deskewed ;;
    let improved_denoised := remove_noise_improved gray in
    let enhanced_img := enhance_image_quality gray in
    enhanced_quality_binary <- cv w ThresholdOtsu enhanced_img ;;
    let deskewed_denoised := remove_noise_improved deskewed in
    Ok [gray; binary; segmented_binary; adaptive_binary; enhanced_binary;
        clahe_binary; sharp_binary; denoised_binary; opening;
        deskewed_binary; improved_denoised; enhanced_quality_binary;
        deskewed_denoised].

(** [except ValueError: raise] / [except Exception: raise RuntimeError] *)
Definition preprocess_image (image_path : string) : res (list image) :=
  match preprocess_body image_path with
  | Ok images => Ok images
  | Raise ValueError => Raise ValueError
  | Raise _ => Raise RuntimeError
  end.

End WithWorld.

(** The calls that [preprocess_image] makes outside any helper. *)
Definition inline_op (op : cv_op) : bool :=
  match op with
  | CvtBGR2GRAY | ResizeArea _ _ | GaussianBlur3 | ThresholdOtsu
  | AdaptiveGaussian | EqualizeHist | ClaheApply | Filter2DSharpen
  | FastNlMeans _ _ _ | MorphOpen1 => true
  | _ => false
  end.

End Variants.

(** ** Quality evaluator *)

Module Evaluate.

(** The dict appended to [image_scores], or returned as placeholder. *)
Inductive score_info : Type :=
| Placeholder (reason : string)
| Failed (index : nat)
| Scored (index : nat) (score : Q) (text_length : Z) (avg_confidence : Q)
         (korean_ratio : Q) (contrast_score : Q).

(** [info['score']] *)
Definition score_of (s : score_info) : Q :=
  match s with
  | Placeholder _ => 0
  | Failed _ => 0
  | Scored _ score _ _ _ _ => score
  end.

Definition index_of (s : score_info) : res nat :=
  match s with
  | Placeholder _ => Raise KeyError
  | Failed i => Ok i
  | Scored i _ _ _ _ _ => Ok i
  end.

(** [[가-힣]] *)
Definition is_hangul (c : codepoint) : bool :=
  ((44032 <=? c) && (c <=? 55203))%N.

Definition count (p : codepoint -> bool) (s : pystr) : Z :=
  Z.of_nat (List.length (filter p s)).

Fixpoint Qsum (l : list Q) : Q :=
  match l with
  | [] => 0
  | x :: r => (x + Qsum r)%Q
  end.

Definition Qmin1 (q : Q) : Q := if Qle_bool 1 q then 1 else q.

Section WithWorld.
Variable w : World.

(** [conf != '-1'] *)
Definition not_minus1 (c : conf_cell) : bool :=
  match c with
  | ConfStr s => negb (String.eqb s "-1")
  | _ => true
  end.

(** [int(conf)]: truncation for a float, parsing for a [str]. *)
Definition int_of_cell (c : conf_cell) : res Z :=
  match c with
  | ConfInt z => Ok z
  | ConfFloat q => Ok (Z.quot (Qnum q) (Zpos (Qden q)))
  | ConfStr s => match int_of_str w s with
                 | Some z => Ok z
                 | None => Raise ValueError
                 end
  end.

Fixpoint ints_of_cells (l : list conf_cell) : res (list Z) :=
  match l with
  | [] => Ok []
  | c :: r => z <- int_of_cell c ;; zs <- ints_of_cells r ;; Ok (z :: zs)
  end.

(** The weighted combination computed for one variant. *)
Definition total_score (lang : string) (text_length : Z)
    (avg_confidence korean_ratio image_contrast : Q) : Q :=
  let weight_length := Qmin1 (inject_Z text_length / (100 # 1)) in
  let weight_confidence := (avg_confidence / (100 # 1))%Q in
  let weight_korean := (korean_ratio * OCRConfig.KOREAN_RATIO_WEIGHT)%Q in
  let contrast_score := Qmin1 (image_contrast / (80 # 1)) in
  let total :=
    if OCRConfig.py_in "kor" lang
    then (weight_length * (3 # 10) + weight_confidence * (3 # 10)
          + weight_korean * (3 # 10) + contrast_score * (1 # 10))%Q
    else (weight_length * (4 # 10) + weight_confidence * (4 # 10)
          + contrast_score * (2 # 10))%Q in
  if (text_length <? OCRConfig.MIN_TEXT_LENGTH)%Z then (total * (1 # 2))%Q
  else total.

(** The measurements taken from one trial recognition. *)
Definition avg_of (conf_scores : list Z) : Q :=
  match conf_scores with
  | [] => 0
  | _ :: _ => (Qsum (map inject_Z conf_scores)
               / inject_Z (Z.of_nat (List.length conf_scores)))%Q
  end.

Definition korean_ratio_of (ocr_result : pystr) : Q :=
  let korean_chars := count is_hangul ocr_result in
  let total_chars := count (fun c => negb (isspace c)) ocr_result in
  if (0 <? total_chars)%Z then (inject_Z korean_chars / inject_Z total_chars)%Q
  else 0.

(** The inner [try] block of the loop, for the variant at index [i]. *)
Definition score_image (lang config temp_file : string) (i : nat) (img : image)
  : res score_info :=
  _ <- imwrite w temp_file img ;;
  ocr_result <- image_to_string w (FromImage img) lang config ;;
  ocr_data <- image_to_data_dict w (FromImage img) lang config ;;
  let text_length := Z.of_nat (List.length (strip ocr_result)) in
  conf_col <- match ocr_data with
              | Some col => Ok col
              | None => Raise KeyError
              end ;;
  conf_scores <- ints_of_cells (filter not_minus1 conf_col) ;;
  let avg_confidence := avg_of conf_scores in
  let korean_ratio := korean_ratio_of ocr_result in
  let image_contrast := np_std w img in
  Ok (Scored i
        (total_score lang text_length avg_confidence korean_ratio image_contrast)
        text_length avg_confidence korean_ratio
        (Qmin1 (image_contrast / (80 # 1)))).

(** The loop body with its [except Exception] handler. *)
Definition score_or_zero (lang config temp_file : string) (i : nat) (img : image)
  : score_info :=
  match score_image lang config temp_file i img with
  | Ok s => s
  | Raise _ => Failed i
  end.

Fixpoint score_all (lang config temp_file : string) (i : nat) (images : list image)
  : list score_info :=
  match images with
  | [] => []
  | img :: rest =>
      score_or_zero lang config temp_file i img
      :: score_all lang config temp_file (S i) rest
  end.

(** [max(image_scores, key=lambda x: x['score'])]: the first maximum. *)
Fixpoint max_from (best : score_info) (rest : list score_info) : score_info :=
  match rest with
  | [] => best
  | s :: rest' =>
      if Variants.Qltb (score_of best) (score_of s) then max_from s rest'
      else max_from best rest'
  end.

(** The scratch file, named relative to the module's directory. *)
Definition temp_eval : string := "temp_eval.png".

Definition psm_config (lang : string) : string :=
  let psm := OCRConfig.get_optimal_psm lang in
  String.append "--oem 1 --psm "
    (String.append (if (psm =? 6)%Z then "6" else "3")
                   " -c preserve_interword_spaces=1").

(** The outer [try] block. *)
Definition evaluate_body (first : image) (images : list image) (lang : string)
  : res (image * score_info) :=
  let config := psm_config lang in
  let image_scores := score_all lang config temp_eval 0 images in
  _ <- (if path_exists w temp_eval then remove_file w temp_eval else Ok tt) ;;
  match image_scores with
  | [] => Ok (first, Placeholder "evaluation_failed")
  | s :: rest =>
      let best_score := max_from s rest in
      best_index <- index_of best_score ;;
      match nth_error images best_index with
      | Some best => Ok (best, best_score)
      | None => Raise OtherError
      end
  end.

Definition evaluate_preprocessing_quality (images : list image) (lang : string)
  : res (image * score_info) :=
  match images with
  | [] => Raise ValueError
  | first :: _ =>
      let '(tesseract_installed, _) := Probe.check_tesseract_availability w lang in
      if negb tesseract_installed
      then Ok (first, Placeholder "tesseract_not_installed")
      else match evaluate_body first images lang with
           | Ok r => Ok r
           | Raise _ => Ok (first, Placeholder "evaluation_error")
           end
  end.

End WithWorld.

End Evaluate.

(** ** Layout-aware extractor *)

Module Layout.

Record rect : Type := { x : Z; y : Z; width : Z; height : Z }.

Record block : Type := { text : pystr; brect : rect; confidence : Q }.

Record layout_result : Type := { full_text : pystr; blocks : list block }.

Definition empty_result : layout_result := {| full_text := []; blocks := [] |}.

Definition text_of (t : token) : pystr :=
  match tk_text t with
  | Some s => s
  | None => []
  end.

(** [dropna(subset=['text'])] followed by [text.str.strip() != ''] *)
Definition keep_text (t : token) : bool :=
  match tk_text t with
  | Some s => match strip s with [] => false | _ :: _ => true end
  | None => false
  end.

(** [Series.unique()]: the values in order of first appearance. *)
Fixpoint unique (l : list Z) : list Z :=
  match l with
  | [] => []
  | z :: r => z :: filter (fun z' => negb (z' =? z)%Z) (unique r)
  end.

(** [block_df[block_df['conf'] > CONFIDENCE_THRESHOLD]] *)
Definition confident (t : token) : bool :=
  Variants.Qltb (inject_Z OCRConfig.CONFIDENCE_THRESHOLD) (tk_conf t).

Definition in_block (b : Z) (t : token) : bool := (tk_block_num t =? b)%Z.
Definition in_line (l : Z) (t : token) : bool := (tk_line_num t =? l)%Z.

(** The surviving tokens of block [b]. *)
Definition block_tokens (data : list token) (b : Z) : list token :=
  filter confident (filter (in_block b) data).

Definition line_text (line_df : list token) : pystr :=
  join [32%N] (map text_of line_df).

Definition nonblank (s : pystr) : bool :=
  match strip s with [] => false | _ :: _ => true end.

Definition block_lines (has_line : bool) (block_df : list token) : list pystr :=
  if has_line
  then filter nonblank
         (map (fun l => line_text (filter (in_line l) block_df))
              (unique (map tk_line_num block_df)))
  else filter nonblank [line_text block_df].

(** [Series.min()] and [Series.max()] of a column with first row [z]. *)
Definition series_min (z : Z) (rest : list Z) : Z := fold_left Z.min rest z.
Definition series_max (z : Z) (rest : list Z) : Z := fold_left Z.max rest z.

(** The rectangle computed for a non-empty [block_df]. *)
Definition block_rect (t0 : token) (rest : list token) : rect :=
  let left := series_min (tk_left t0) (map tk_left rest) in
  let top := series_min (tk_top t0) (map tk_top rest) in
  let right := (series_max (tk_left t0) (map tk_left rest)
                + series_max (tk_width t0) (map tk_width rest))%Z in
  let bottom := (series_max (tk_top t0) (map tk_top rest)
                 + series_max (tk_height t0) (map tk_height rest))%Z in
  {| x := left; y := top; width := right - left; height := bottom - top |}.

(** One turn of the loop over [block_num]; [None] is [continue] or a
    block without lines. *)
Definition build_block (has_line : bool) (block_df : list token) : option block :=
  match block_df with
  | [] => None
  | t0 :: rest =>
      match block_lines has_line block_df with
      | [] => None
      | lines =>
          Some {| text := join [10%N] lines;
                  brect := block_rect t0 rest;
                  confidence :=
                    (Evaluate.Qsum (map tk_conf block_df)
                     / inject_Z (Z.of_nat (List.length block_df)))%Q |}
      end
  end.

Fixpoint filter_map {A B : Type} (f : A -> option B) (l : list A) : list B :=
  match l with
  | [] => []
  | a :: r => match f a with
              | Some b => b :: filter_map f r
              | None => filter_map f r
              end
  end.

Definition layout_blocks (has_line : bool) (data : list token) : list block :=
  filter_map (fun b => build_block has_line (block_tokens data b))
             (unique (map tk_block_num data)).

(** What the function does with the table returned by the engine. *)
Definition layout_of_frame (data : frame) : layout_result :=
  if has_text data then
    match filter keep_text (rows data) with
    | [] => empty_result
    | kept =>
        {| full_text := join [32%N] (map text_of kept);
           blocks := if has_block_num data && has_conf data
                     then layout_blocks (has_line_num data) kept
                     else [] |}
    end
  else empty_result.

Section WithWorld.
Variable w : World.

(** The language handed to the recognition calls. *)
Definition effective_lang (lang_installed : bool) (lang : string) : string :=
  if negb lang_installed && OCRConfig.py_in "kor" lang then "eng"%string
  else lang.

(** The part of the [try] block that follows the language decision. *)
Definition extract_from (image_path lang : string) : res layout_result :=
  loaded <- imread w image_path ;;
  _ <- match loaded with
       | Some i => Ok i
       | None => Raise ValueError
       end ;;
  preprocessed_images <- Variants.preprocess_image w image_path ;;
  '(best_preprocessed, _) <-
    Evaluate.evaluate_preprocessing_quality w preprocessed_images lang ;;
  tesseract_data <-
    image_to_data_frame w (FromImage best_preprocessed) lang
      OCRConfig.DEFAULT_CONFIG ;;
  Ok (layout_of_frame tesseract_data).

(** The [try] block of [extract_text_with_layout]. *)
Definition extract_body (image_path lang : string) : res layout_result :=
  let '(tesseract_installed, lang_installed) :=
    Probe.check_tesseract_availability w lang in
  if negb tesseract_installed then Raise RuntimeError
  else extract_from image_path (effective_lang lang_installed lang).

(** [except Exception: return result], with [result] still empty. *)
Definition extract_text_with_layout (image_path lang : string) : layout_result :=
  match extract_body image_path lang with
  | Ok r => r
  | Raise _ => empty_result
  end.

End WithWorld.


(** The minimal rectangle enclosing the tokens [t0 :: rest]. *)
Definition union_rect (t0 : token) (rest : list token) : rect :=
  let left := series_min (tk_left t0) (map tk_left rest) in
  let top := series_min (tk_top t0) (map tk_top rest) in
  let right := series_max (tk_left t0 + tk_width t0)
                 (map (fun t => tk_left t + tk_width t)%Z rest) in
  let bottom := series_max (tk_top t0 + tk_height t0)
                  (map (fun t => tk_top t + tk_height t)%Z rest) in
  {| x := left; y := top; width := right - left; height := bottom - top |}.

End Layout.

(** ** Language resolution cascade *)

Module Cascade.

(** [os.path.splitext(p)[0]]: the path without its extension. The dot
    must come after the last separator and after a character of the file
    name that is not itself a dot. *)
Fixpoint until_char (c : ascii) (l : list ascii) : list ascii * option (list ascii) :=
  match l with
  | [] => ([], None)
  | a :: r => if Ascii.eqb a c then ([], Some r)
              else let '(before, after) := until_char c r in (a :: before, after)
  end.

Definition splitext_root (p : string) : string :=
  let reversed := rev (list_ascii_of_string p) in
  match until_char "."%char reversed with
  | (ext, Some front) =>
      if existsb (Ascii.eqb "/"%char) ext then p
      else
        let name := fst (until_char "/"%char front) in
        if existsb (fun a => negb (Ascii.eqb a "."%char)) name
        then string_of_list_ascii (rev front)
        else p
  | (_, None) => p
  end.

Section WithWorld.
Variable w : World.

(** [f"{tesseract_lang}+eng"] unless the language is English. *)
Definition compose_lang (tesseract_lang : string) : string :=
  if String.eqb tesseract_lang "eng" then tesseract_lang
  else String.append tesseract_lang "+eng".

(** [return lang_code] guarded by the probe. *)
Definition validated (lang_code : string) : option string :=
  if snd (Probe.check_tesseract_availability w lang_code) then Some lang_code
  else None.

Definition succeeded (r : reply) : bool :=
  match r_success r with
  | Some b => b
  | None => false
  end.

(** From a detected code to a validated configuration. *)
Definition from_detected (detected_lang : string) : option string :=
  match OCRConfig.dict_get OCRConfig.LANGDETECT_TO_TESSERACT detected_lang with
  | Some tesseract_lang =>
      if String.eqb tesseract_lang "" then None
      else validated (compose_lang tesseract_lang)
  | None => None
  end.

(** First tier: the external oracle, inside its own [try]. *)
Definition oracle_tier (image_path : string) : option string :=
  match oracle w with
  | None => None
  | Some extract_text_with_gemini =>
      match extract_text_with_gemini image_path with
      | Ok (Some lang_result) =>
          if succeeded lang_result then
            match r_language lang_result with
            | Some detected_lang => from_detected detected_lang
            | None => None
            end
          else None
      | Ok None => None
      | Raise _ => None
      end
  end.

(** One sampled recognition; [None] when it raised or was too short. *)
Definition sample (image_path lang_sample psm : string) : option pystr :=
  match image_to_string w (FromPath image_path) lang_sample
          (String.append "--psm " (String.append psm " --oem 1")) with
  | Ok t =>
      let sample_text := strip t in
      if (20 <? List.length sample_text)%nat then Some sample_text else None
  | Raise _ => None
  end.

Definition sample_lang (image_path lang_sample : string) : list pystr :=
  match sample image_path lang_sample "3" with
  | Some t => [t]
  | None => match sample image_path lang_sample "6" with
            | Some t => [t]
            | None => []
            end
  end.

Definition sample_texts (image_path : string) : list pystr :=
  flat_map (sample_lang image_path) ["eng"; "kor"; "jpn"; "chi_sim"]%string.

(** Statistical tier over the pooled samples; a missing key raises. *)
Definition detect_tier (combined_text : pystr) : res (option string) :=
  match detect_language w with
  | None => Ok None
  | Some detect =>
      lang_result <- detect combined_text ;;
      match lang_result with
      | Some r =>
          if succeeded r then
            detected_lang <- match r_language r with
                             | Some l => Ok l
                             | None => Raise KeyError
                             end ;;
            _ <- match r_language_name r with
                 | Some n => Ok n
                 | None => Raise KeyError
                 end ;;
            Ok (from_detected detected_lang)
          else Ok None
      | None => Ok None
      end
  end.

Definition in_range (lo hi c : N) : bool := ((lo <=? c) && (c <=? hi))%N.

Definition pattern_counts (s : pystr) : list (string * Z) :=
  [ ("kor"%string, Evaluate.count (in_range 44032 55203) s);
    ("eng"%string, Evaluate.count (fun c => in_range 97 122 c || in_range 65 90 c) s);
    ("jpn"%string, Evaluate.count (fun c => in_range 12352 12447 c
                                            || in_range 12448 12543 c) s);
    ("chi_sim"%string, Evaluate.count (in_range 19968 40959) s) ].

(** [max(items, key=lambda x: x[1])[0]]: the first maximum. *)
Fixpoint max_item (best : string * Z) (rest : list (string * Z)) : string * Z :=
  match rest with
  | [] => best
  | it :: rest' =>
      if (snd best <? snd it)%Z then max_item it rest' else max_item best rest'
  end.

(** Character-frequency tier. The ratio test [eng / max(total, 1) > 0.2]
    is written in exact arithmetic. *)
Definition pattern_tier (combined_text : pystr) : option string :=
  let counts := pattern_counts combined_text in
  if existsb (fun it => negb (snd it =? 0)%Z) counts then
    let main_lang := fst (max_item (hd (""%string, 0%Z) counts) (tl counts)) in
    let eng := Evaluate.count (fun c => in_range 97 122 c || in_range 65 90 c)
                 combined_text in
    let total := fold_right Z.add 0%Z (map snd counts) in
    let lang_code :=
      if negb (String.eqb main_lang "eng") && (Z.max total 1 <? 5 * eng)%Z
      then String.append main_lang "+eng"
      else main_lang in
    validated lang_code
  else None.

(** The branch taken when no sample was kept, inside its own [try]. *)
Definition preprocessed_body (image_path : string) : res (option string) :=
  loaded <- imread w image_path ;;
  match loaded with
  | None => Ok (Some OCRConfig.DEFAULT_LANG)
  | Some img =>
      gray <- cv w CvtBGR2GRAY img ;;
      binary <- cv w ThresholdOtsu gray ;;
      let temp_path := String.append (splitext_root image_path) "_temp_lang.png" in
      _ <- imwrite w temp_path binary ;;
      processed_text <- image_to_string w (FromImage binary) "eng+kor+jpn" "--psm 3" ;;
      _ <- (if path_exists w temp_path then remove_file w temp_path else Ok tt) ;;
      match processed_text, detect_language w with
      | _ :: _, Some detect =>
          lang_result <- detect processed_text ;;
          match lang_result with
          | Some r =>
              if succeeded r then
                detected_lang <- match r_language r with
                                 | Some l => Ok l
                                 | None => Raise KeyError
                                 end ;;
                Ok (from_detected detected_lang)
              else Ok None
          | None => Ok None
          end
      | _, _ => Ok None
      end
  end.

Definition preprocessed_tier (image_path : string) : option string :=
  match preprocessed_body image_path with
  | Ok r => r
  | Raise _ => None
  end.

(** Everything after the oracle tier, up to the outer handler. *)
Definition cascade_body (image_path : string) : res string :=
  let samples := sample_texts image_path in
  let combined_text := join [32%N] samples in
  from_text <- match combined_text with
               | [] => Ok None
               | _ :: _ =>
                   detected <- detect_tier combined_text ;;
                   match detected with
                   | Some l => Ok (Some l)
                   | None => Ok (pattern_tier combined_text)
                   end
               end ;;
  match from_text with
  | Some l => Ok l
  | None =>
      match (match samples with
             | [] => preprocessed_tier image_path
             | _ :: _ => None
             end) with
      | Some l => Ok l
      | None => Ok OCRConfig.DEFAULT_LANG
      end
  end.

Definition detect_ocr_language (image_path : string) : string :=
  match oracle_tier image_path with
  | Some l => l
  | None =>
      match cascade_body image_path with
      | Ok l => l
      | Raise _ => OCRConfig.DEFAULT_LANG
      end
  end.

End WithWorld.

End Cascade.

(** ** Concrete worlds *)

Module Scenarios.
Local Open Scope string_scope.

Definition page : image := Color [[(0, 0, 0)%Z]].

Definition word (s : pystr) (conf : Q) (l t wd h b ln : Z) : token :=
  {| tk_text := Some s; tk_conf := conf; tk_left := l; tk_top := t;
     tk_width := wd; tk_height := h; tk_block_num := b; tk_line_num := ln |}.

Definition table (toks : list token) : frame :=
  {| has_text := true; has_block_num := true; has_conf := true;
     has_line_num := true; rows := toks |}.

(** A machine whose files are all readable one-pixel images, whose
    single-image transforms fail exactly on [failing], and whose engine
    answers from [read_text], [cells] and [read_table]. *)
Definition studio (found : bool) (langs : option string)
    (failing : cv_op -> bool) (read_text : string -> res pystr)
    (cells : list conf_cell) (std : Q) (read_table : string -> res frame)
  : World :=
  {| path_exists := fun _ => true;
     imread := fun _ => Ok (Some page);
     imwrite := fun _ _ => Ok tt;
     remove_file := fun _ => Ok tt;
     cv := fun op img => if failing op then Raise Cv2Error else Ok img;
     cv2 := fun _ a _ => Ok a;
     nonzero_count := fun _ => 0%nat;
     min_area_angle := fun _ => Ok 0%Q;
     np_std := fun _ => std;
     tesseract_found := found;
     list_langs := langs;
     image_to_string := fun _ lang _ => read_text lang;
     image_to_data_dict := fun _ _ _ => Ok (Some cells);
     image_to_data_frame := fun _ lang _ => read_table lang;
     int_of_str := fun _ => None;
     oracle := None;
     detect_language := None |}.

Definition never : cv_op -> bool := fun _ => false.

(** "hello" and "world" *)
Definition hello : pystr := [104; 101; 108; 108; 111]%N.
Definition world : pystr := [119; 111; 114; 108; 100]%N.

(** No engine on the machine. *)
Definition no_engine : World :=
  studio false None never (fun _ => Raise TesseractError) [] 0
         (fun _ => Raise TesseractError).

(** Engine and both packs present, and a page without any text. *)
Definition blank_page : World :=
  studio true (Some "eng kor") never (fun _ => Ok []) [] 0
         (fun _ => Ok (table [])).

(** Engine present with the English pack only; the engine refuses every
    other language. *)
Definition english_only : World :=
  studio true (Some "eng") never
         (fun lang => if String.eqb lang "eng" then Ok hello
                      else Raise TesseractError)
         [ConfInt 95] 40
         (fun lang => if String.eqb lang "eng"
                      then Ok (table [word hello (95 # 1) 10 10 50 12 1 1])
                      else Raise TesseractError).

(** Only the sharpening filter fails. *)
Definition sharpen_fails : World :=
  studio true (Some "eng kor")
         (fun op => match op with Filter2DSharpen => true | _ => false end)
         (fun _ => Ok hello) [ConfInt 95] 40
         (fun _ => Ok (table [word hello (95 # 1) 10 10 50 12 1 1])).

(** Every transform made only inside a helper fails. *)
Definition helpers_fail : World :=
  studio true (Some "eng kor") (fun op => negb (Variants.inline_op op))
         (fun _ => Ok hello) [ConfInt 95] 40
         (fun _ => Ok (table [word hello (95 # 1) 10 10 50 12 1 1])).

(** A sharp page of one hundred Hangul syllables read with full
    confidence. *)
Definition hangul_page : World :=
  studio true (Some "eng kor") never
         (fun _ => Ok (repeat 44032%N 100)) [ConfInt 100] 80
         (fun _ => Ok (table [word [44032%N] (100 # 1) 0 0 10 10 1 1])).

(** A block of two tokens, the second lying inside the first. *)
Definition wide : token := word hello (90 # 1) 0 0 100 20 1 1.
Definition narrow : token := word world (90 # 1) 50 5 10 10 1 1.

Definition nested_tokens : World :=
  studio true (Some "eng kor") never (fun _ => Ok hello) [ConfInt 90] 40
         (fun _ => Ok (table [wide; narrow])).

(** A page whose samples are Hangul with some Latin letters, on a machine
    without any language detector. *)
Definition mixed_sample : pystr :=
  (repeat 44032 20 ++ repeat 97 10)%N%list.

Definition mixed_page : World :=
  studio true (Some "eng kor") never (fun _ => Ok mixed_sample) [] 0
         (fun _ => Ok (table [])).

End Scenarios.

(** ** Reference formulas and side conditions used by the statements *)

Module Reference.

(** The weighted score as the requirements document words it: the script
    ratio enters with weight 0.3 and nothing else. *)
Definition documented_score (lang : string)
    (lengthTerm confidenceTerm scriptRatio contrastTerm : Q) : Q :=
  if OCRConfig.py_in "kor" lang
  then ((3 # 10) * lengthTerm + (3 # 10) * confidenceTerm
        + (3 # 10) * scriptRatio + (1 # 10) * contrastTerm)%Q
  else ((4 # 10) * lengthTerm + (4 # 10) * confidenceTerm
        + (2 # 10) * contrastTerm)%Q.






(** The surviving tokens of block [b] of an engine table. *)
Definition surviving (data : frame) (b : Z) : list token :=
  Layout.block_tokens (filter Layout.keep_text (rows data)) b.

End Reference.

(** ** Shape predicates on normalised text (used by the statements) *)

Module TextShape.

Definition starts_ws (s : pystr) : bool :=
  match s with
  | c :: _ => isspace c
  | [] => false
  end.

Fixpoint ends_ws (s : pystr) : bool :=
  match s with
  | [] => false
  | c :: t =>
      match t with
      | [] => isspace c
      | _ :: _ => ends_ws t
      end
  end.

(** No two adjacent whitespace characters. *)
Fixpoint isolated (s : pystr) : bool :=
  match s with
  | [] => true
  | c :: t => negb (isspace c && starts_ws t) && isolated t
  end.

(** Trimmed at both ends and with isolated whitespace. *)
Definition tidy (s : pystr) : Prop :=
  starts_ws s = false /\ ends_ws s = false /\ isolated s = true.

(** A line that [clean_lines] keeps unchanged. *)
Definition good_line (l : pystr) : Prop :=
  l <> [] /\ starts_ws l = false /\ ends_ws l = false.

Definition nonws (c : codepoint) : bool := negb (isspace c).

(** The replacement table applied to a one-character string. *)
Definition subst1 (c : codepoint) : pystr :=
  Normalizer.apply_replacements [c].
Arguments subst1 c : simpl never.

(** What the table does to one character: whitespace stays one whitespace
    character, anything else becomes a non-empty run of non-whitespace, and
    no produced character is changed by a second application. *)
Definition subst_ok (c : codepoint) : bool :=
  (if isspace c
   then match subst1 c with [d] => isspace d | _ => false end
   else match subst1 c with [] => false | r => forallb nonws r end)
  && forallb (fun d => match subst1 d with
                       | [d'] => N.eqb d' d
                       | _ => false
                       end) (subst1 c).

End TextShape.

(** ** Region merging *)

Module Regions.
Local Open Scope Z_scope.

(** A text region [(x, y, w, h)]. *)
Definition region : Type := Z * Z * Z * Z.

(** The intersection test of the inner loop, for the incoming region
    and one already merged. *)
Definition overlaps (r m : region) : bool :=
  let '(x, y, w, h) := r in
  let '(mx, my, mw, mh) := m in
  (x <=? mx + mw) && (mx <=? x + w) && (y <=? my + mh) && (my <=? y + h).

(** The region written to [merged_regions[i]]. *)
Definition union (r m : region) : region :=
  let '(x, y, w, h) := r in
  let '(mx, my, mw, mh) := m in
  let new_x := Z.min x mx in
  let new_y := Z.min y my in
  (new_x, new_y, Z.max (x + w) (mx + mw) - new_x, Z.max (y + h) (my + mh) - new_y).

(** The inner [for] with its [break]: the first merged region that the
    incoming one touches is replaced; [None] when [merged] stays false. *)
Fixpoint merge_into (r : region) (merged_regions : list region)
  : option (list region) :=
  match merged_regions with
  | [] => None
  | m :: rest =>
      if overlaps r m then Some (union r m :: rest)
      else match merge_into r rest with
           | Some rest' => Some (m :: rest')
           | None => None
           end
  end.

(** One turn of the outer loop. *)
Definition merge_step (merged_regions : list region) (r : region) : list region :=
  match merge_into r merged_regions with
  | Some l => l
  | None => merged_regions ++ [r]
  end.

Definition merge_text_regions (regions : list region) : list region :=
  match regions with
  | [] => []
  | _ :: _ => fold_left merge_step regions []
  end.

(** [a] lies inside [m]. *)
Definition within (a m : region) : Prop :=
  let '(x, y, w, h) := a in
  let '(mx, my, mw, mh) := m in
  mx <= x /\ my <= y /\ x + w <= mx + mw /\ y + h <= my + mh.

Definition covered (a : region) (l : list region) : Prop :=
  exists m, In m l /\ within a m.

(** No region of the list touches an earlier one. *)
Fixpoint apart (l : list region) : bool :=
  match l with
  | [] => true
  | a :: t => forallb (fun b => negb (overlaps b a)) t && apart t
  end.

End Regions.

(** ** Language names and the image processor *)

Module Languages.
Local Open Scope string_scope.

(** An ASCII code used where Python expects text. *)
Definition pystr_of_string (s : string) : pystr :=
  map N_of_ascii (list_ascii_of_string s).

(** [OCRConfig.SUPPORTED_LANGUAGES]: code and Korean display name. *)
Definition SUPPORTED_LANGUAGES : list (string * pystr) :=
  [ ("kor", [54620; 44397; 50612]);
    ("eng", [50689; 50612]);
    ("jpn", [51068; 48376; 50612]);
    ("chi_sim", [51473; 44397; 50612; 32; 44036; 52404]);
    ("chi_tra", [51473; 44397; 50612; 32; 48264; 52404]);
    ("deu", [46021; 51068; 50612]);
    ("fra", [54532; 46993; 49828; 50612]);
    ("spa", [49828; 54168; 51064; 50612]);
    ("rus", [47084; 49884; 50500; 50612]);
    ("ita", [51060; 53448; 47532; 50500; 50612]);
    ("por", [54252; 47476; 53804; 44040; 50612]);
    ("ara", [50500; 46989; 50612]);
    ("hin", [55180; 46356; 50612]);
    ("vie", [48288; 53944; 45224; 50612]);
    ("tha", [53468; 44397; 50612]) ]%N.

Definition COMMON_LANGUAGE_COMBINATIONS : list (string * string) :=
  [ ("kor", "kor"); ("eng", "eng"); ("kor+eng", "kor+eng"); ("jpn", "jpn");
    ("jpn+eng", "jpn+eng"); ("chi_sim", "chi_sim");
    ("chi_sim+eng", "chi_sim+eng"); ("kor+eng+jpn", "kor+eng+jpn");
    ("kor+eng+jpn+chi_sim", "kor+eng+jpn+chi_sim"); ("deu+eng", "deu+eng");
    ("fra+eng", "fra+eng"); ("spa+eng", "spa+eng"); ("rus+eng", "rus+eng");
    ("multi", "kor+eng+jpn+chi_sim+deu+fra+spa") ].

Fixpoint name_get (d : list (string * pystr)) (key : string) : option pystr :=
  match d with
  | [] => None
  | (k, v) :: rest => if String.eqb k key then Some v else name_get rest key
  end.

(** [SUPPORTED_LANGUAGES.get(part, part)] *)
Definition name_or_code (part : string) : pystr :=
  match name_get SUPPORTED_LANGUAGES part with
  | Some name => name
  | None => pystr_of_string part
  end.

(** [OCRConfig.get_language_name] *)
Definition get_language_name (lang_code : string) : pystr :=
  if OCRConfig.py_in "+" lang_code
  then join [32; 43; 32]%N (map name_or_code (OCRConfig.split_plus lang_code))
  else name_or_code lang_code.

(** [l in OCRConfig.SUPPORTED_LANGUAGES] *)
Definition supported (l : string) : bool :=
  match name_get SUPPORTED_LANGUAGES l with
  | Some _ => true
  | None => false
  end.

End Languages.

Module Processor.
Import Languages.
Local Open Scope string_scope.

(** What [process_image] needs from the machine beyond the [World]:
    [os.path.abspath], [os.path.getsize], and the text oracle of the
    application ([None] when its import fails; an answer that is not a
    [str] is [Ok None]). *)
Record Host : Type := {
  host_world : World;
  abspath : string -> string;
  getsize : string -> res Z;
  gemini_text : option (string -> res (option pystr))
}.

(** The values the function returns from inside its [try] block. *)
Inductive returned : Type :=
| GeminiText (s : pystr)
| LayoutDict (r : Layout.layout_result).

(** Why the handler was entered: an exception raised by a step, or the
    [UnboundLocalError] of [return result] when [result] was never
    assigned. *)
Inductive cause : Type :=
| Raised (e : exn)
| UnboundResult.

(** The return value: a value of the [try] block, or the string
    [[OCR 오류: ...]] built by the handler. *)
Inductive outcome : Type :=
| Returned (v : returned)
| ErrorText (c : cause).

(** The language checks: every part must be a supported code, otherwise
    the default configuration is used. *)
Definition checked_lang (lang : string) : string :=
  if OCRConfig.py_in "+" lang then
    fold_left (fun cur l => if supported l then cur else OCRConfig.DEFAULT_LANG)
              (OCRConfig.split_plus lang) lang
  else if supported lang then lang
  else OCRConfig.DEFAULT_LANG.

(** [if lang in COMMON_LANGUAGE_COMBINATIONS: lang = ...[lang]] *)
Definition combination (lang : string) : string :=
  match OCRConfig.dict_get COMMON_LANGUAGE_COMBINATIONS lang with
  | Some v => v
  | None => lang
  end.

(** Every '+'-separated part of [l] is a supported code. *)
Definition well_formed (l : string) : Prop :=
  forallb supported (OCRConfig.split_plus l) = true.

(** The dict built from the engine's table; [None] when [result] is
    left unassigned. *)
Definition recognised (data : frame) : option Layout.layout_result :=
  if has_text data then
    match filter Layout.keep_text (rows data) with
    | [] => None
    | kept =>
        Some {| Layout.full_text := join [32%N] (map Layout.text_of kept);
                Layout.blocks :=
                  if has_block_num data && has_conf data
                  then Layout.layout_blocks (has_line_num data) kept
                  else [] |}
    end
  else None.

Section WithHost.
Variable h : Host.

(** The fallback taken when the engine is missing, with its two
    handlers: [Some] is the text returned. *)
Definition gemini_attempt (abs_image_path : string) : option pystr :=
  match gemini_text h with
  | None => None
  | Some extract_text_with_gemini =>
      match extract_text_with_gemini abs_image_path with
      | Ok (Some gemini_text) =>
          match gemini_text, strip gemini_text with
          | _ :: _, _ :: _ => Some gemini_text
          | _, _ => None
          end
      | Ok None => None
      | Raise _ => None
      end
  end.

(** The [try] block; [Ok None] is the final [return result] reached
    with [result] unassigned. *)
Definition process_body (image_path : string) (lang : option string)
  : res (option returned) :=
  let w := host_world h in
  let abs_image_path := abspath h image_path in
  if negb (path_exists w abs_image_path) then Raise FileNotFoundError
  else
    file_size <- getsize h abs_image_path ;;
    if (file_size =? 0)%Z then Raise ValueError
    else
      let tesseract_installed :=
        fst (Probe.check_tesseract_availability w OCRConfig.DEFAULT_LANG) in
      match (if tesseract_installed then None
             else gemini_attempt abs_image_path) with
      | Some gemini_text => Ok (Some (GeminiText gemini_text))
      | None =>
          let lang := match lang with
                      | Some (String c rest) => String c rest
                      | _ => Cascade.detect_ocr_language w abs_image_path
                      end in
          let lang := combination (checked_lang lang) in
          preprocessed_images <- Variants.preprocess_image w abs_image_path ;;
          '(best_image, _) <-
            Evaluate.evaluate_preprocessing_quality w preprocessed_images lang ;;
          if tesseract_installed then
            tesseract_data <-
              image_to_data_frame w (FromImage best_image) lang
                OCRConfig.DEFAULT_CONFIG ;;
            Ok (option_map LayoutDict (recognised tesseract_data))
          else Ok None
      end.

Definition process_image (image_path : string) (lang : option string) : outcome :=
  match process_body image_path lang with
  | Ok (Some v) => Returned v
  | Ok None => ErrorText UnboundResult
  | Raise e => ErrorText (Raised e)
  end.

End WithHost.

End Processor.

Module ProcessorScenarios.

(** A host on which paths are already absolute, every file has [size]
    bytes and the application's oracle cannot be imported. *)
Definition desk (w : World) (size : Z) : Processor.Host :=
  {| Processor.host_world := w;
     Processor.abspath := fun p => p;
     Processor.getsize := fun _ => Ok size;
     Processor.gemini_text := None |}.

(** A machine on which no file exists. *)
Definition empty_disk : World :=
  {| path_exists := fun _ => false;
     imread := fun _ => Ok None;
     imwrite := fun _ _ => Ok tt;
     remove_file := fun _ => Ok tt;
     cv := fun _ img => Ok img;
     cv2 := fun _ a _ => Ok a;
     nonzero_count := fun _ => 0%nat;
     min_area_angle := fun _ => Ok 0%Q;
     np_std := fun _ => 0%Q;
     tesseract_found := true;
     list_langs := Some "eng kor"%string;
     image_to_string := fun _ _ _ => Ok [];
     image_to_data_dict := fun _ _ _ => Ok (Some []);
     image_to_data_frame := fun _ _ _ => Ok (Scenarios.table []);
     int_of_str := fun _ => None;
     oracle := None;
     detect_language := None |}.

(** A machine on which a grayscale image has more contrast than a colour
    one, and every page reads "hello". *)
Definition graded : World :=
  {| path_exists := fun _ => true;
     imread := fun _ => Ok (Some Scenarios.page);
     imwrite := fun _ _ => Ok tt;
     remove_file := fun _ => Ok tt;
     cv := fun _ img => Ok img;
     cv2 := fun _ a _ => Ok a;
     nonzero_count := fun _ => 0%nat;
     min_area_angle := fun _ => Ok 0%Q;
     np_std := fun img => if is_color img then 0%Q else (80 # 1)%Q;
     tesseract_found := true;
     list_langs := Some "eng kor"%string;
     image_to_string := fun _ _ _ => Ok Scenarios.hello;
     image_to_data_dict := fun _ _ _ => Ok (Some [ConfInt 90]);
     image_to_data_frame := fun _ _ _ => Ok (Scenarios.table []);
     int_of_str := fun _ => None;
     oracle := None;
     detect_language := None |}.

Definition sheet : image := Gray [[0%Z]].

End ProcessorScenarios.

(** ** Language codes of the detector *)

Module TranslationConfig.
Local Open Scope string_scope.

Definition SUPPORTED_LANGUAGES : list (string * pystr) :=
  [ ("ko", [54620; 44397; 50612]);
    ("en", [50689; 50612]);
    ("ja", [51068; 48376; 50612]);
    ("zh-cn", [51473; 44397; 50612; 32; 44036; 52404]);
    ("zh-tw", [51473; 44397; 50612; 32; 48264; 52404]);
    ("de", [46021; 51068; 50612]);
    ("fr", [54532; 46993; 49828; 50612]);
    ("es", [49828; 54168; 51064; 50612]);
    ("ru", [47084; 49884; 50500; 50612]);
    ("it", [51060; 53448; 47532; 50500; 50612]);
    ("pt", [54252; 47476; 53804; 44040; 50612]);
    ("ar", [50500; 46989; 50612]);
    ("hi", [55180; 46356; 50612]);
    ("vi", [48288; 53944; 45224; 50612]);
    ("th", [53468; 44397; 50612]) ]%N.

Definition LANG_CODE_MAPPING : list (string * string) :=
  [ ("ko", "ko"); ("en", "en"); ("ja", "ja"); ("zh-cn", "zh-CN");
    ("zh-tw", "zh-TW"); ("de", "de"); ("fr", "fr"); ("es", "es");
    ("ru", "ru"); ("it", "it"); ("pt", "pt"); ("ar", "ar"); ("hi", "hi");
    ("vi", "vi"); ("th", "th") ].

(** [{v: k for k, v in LANG_CODE_MAPPING.items()}]; the values are
    pairwise distinct, so no entry overwrites another. *)
Definition REVERSE_LANG_CODE_MAPPING : list (string * string) :=
  map (fun kv => (snd kv, fst kv)) LANG_CODE_MAPPING.

Definition get_language_name (lang_code : string) : pystr :=
  let lang_code :=
    match OCRConfig.dict_get REVERSE_LANG_CODE_MAPPING lang_code with
    | Some k => k
    | None => lang_code
    end in
  match Languages.name_get SUPPORTED_LANGUAGES lang_code with
  | Some name => name
  | None => Languages.pystr_of_string lang_code
  end.

Definition is_supported_language (lang_code : string) : bool :=
  existsb (String.eqb lang_code) (map fst SUPPORTED_LANGUAGES)
  || existsb (String.eqb lang_code) (map snd LANG_CODE_MAPPING).

Definition normalize_lang_code (lang_code : string) : string :=
  match OCRConfig.dict_get LANG_CODE_MAPPING lang_code with
  | Some v => v
  | None => lang_code
  end.

End TranslationConfig.

(** ** MSER region detection *)

Module Mser.
Local Open Scope Z_scope.

Definition MIN_REGION_HEIGHT : Z := 8.
Definition MIN_REGION_WIDTH : Z := 3.
Definition MAX_REGION_HEIGHT : Z := 100.
Definition MAX_REGION_WIDTH : Z := 100.
Definition MAX_ASPECT_RATIO : Z := 10.

(** What [detect_mser_regions] asks of OpenCV beyond the [World]: the
    bounding rectangles of the regions found by [mser.detectRegions], the
    conversion back to colour and the drawing of one rectangle. *)
Record Host : Type := {
  host_world : World;
  bounding_rects : image -> res (list Regions.region);
  gray_to_bgr : image -> res image;
  draw_rectangle : image -> Regions.region -> res image
}.

(** [a/b if b > 0 else float('inf')], compared with the maximum. *)
Definition aspect_ok (a b : Z) : bool :=
  if 0 <? b
  then Variants.Qltb (inject_Z a / inject_Z b) (inject_Z MAX_ASPECT_RATIO)
  else false.

(** The test a bounding rectangle must pass to be kept. *)
Definition keeps (r : Regions.region) : bool :=
  let '(x, y, w, h) := r in
  (MIN_REGION_HEIGHT <? h) && (MIN_REGION_WIDTH <? w)
  && (h <? MAX_REGION_HEIGHT) && (w <? MAX_REGION_WIDTH)
  && aspect_ok w h && aspect_ok h w.

Section WithHost.
Variable h : Host.

(** [img.copy() if len(img.shape) == 3 else cv2.cvtColor(gray, GRAY2BGR)] *)
Definition canvas (img gray : image) : res image :=
  if is_color img then Ok img else gray_to_bgr h gray.

(** The loop over the rectangles. *)
Fixpoint mark (image_with_boxes : image) (rects : list Regions.region)
  : res (image * list Regions.region) :=
  match rects with
  | [] => Ok (image_with_boxes, [])
  | r :: rest =>
      if keeps r then
        drawn <- draw_rectangle h image_with_boxes r ;;
        '(final, text_regions) <- mark drawn rest ;;
        Ok (final, r :: text_regions)
      else mark image_with_boxes rest
  end.

(** The [try] block. The source calls [cv2.boundingRect] inside the
    loop; a failure there or in the drawing leads to the same handler,
    which discards what was drawn and collected. *)
Definition mser_body (img : image) : res (image * list Regions.region) :=
  gray <- (if is_color img then cv (host_world h) CvtBGR2GRAY img else Ok img) ;;
  rects <- bounding_rects h gray ;;
  image_with_boxes <- canvas img gray ;;
  mark image_with_boxes rects.

(** With the handler, whose own conversion may raise. *)
Definition detect_mser_regions (img : image) : res (image * list Regions.region) :=
  match mser_body img with
  | Ok r => Ok r
  | Raise _ =>
      if is_color img then Ok (img, [])
      else out <- gray_to_bgr h img ;; Ok (out, [])
  end.

End WithHost.

(** A host that finds the given rectangles on every image. *)
Definition finder (w : World) (rects : list Regions.region) : Host :=
  {| host_world := w;
     bounding_rects := fun _ => Ok rects;
     gray_to_bgr := fun img => Ok img;
     draw_rectangle := fun img _ => Ok img |}.

End Mser.

(** * Theorems *)

(** ** Text normalizer *)

Module NormalizerFacts.
Import Normalizer TextShape.
Local Open Scope N_scope.

Lemma ends_ws_cons c s :
  ends_ws (c :: s) = match s with [] => isspace c | _ :: _ => ends_ws s end.
Proof. reflexivity. Qed.

Lemma lstrip_starts s : starts_ws (lstrip s) = false.
Proof.
  induction s as [|c t IH]; simpl; [reflexivity|].
  destruct (isspace c) eqn:E; [exact IH | simpl; exact E].
Qed.

Lemma lstrip_id s : starts_ws s = false -> lstrip s = s.
Proof. destruct s as [|c t]; simpl; [reflexivity|]. intros ->. reflexivity. Qed.

Lemma rstrip_ends s : ends_ws (rstrip s) = false.
Proof.
  induction s as [|c t IH]; simpl; [reflexivity|].
  destruct (rstrip t) as [|d r] eqn:E.
  - destruct (isspace c) eqn:Ec; simpl; [reflexivity | exact Ec].
  - rewrite ends_ws_cons. exact IH.
Qed.

Lemma rstrip_starts s : starts_ws s = false -> starts_ws (rstrip s) = false.
Proof.
  destruct s as [|c t]; simpl; [reflexivity|]. intros E.
  destruct (rstrip t); rewrite ?E; simpl; exact E.
Qed.

Lemma rstrip_id s : ends_ws s = false -> rstrip s = s.
Proof.
  induction s as [|c t IH]; [reflexivity|].
  rewrite ends_ws_cons. destruct t as [|d t'].
  - intros E. simpl. rewrite E. reflexivity.
  - intros E. specialize (IH E). change (rstrip (c :: d :: t')) with
      (match rstrip (d :: t') with [] => if isspace c then [] else [c] | r => c :: r end).
    rewrite IH. reflexivity.
Qed.

Lemma strip_trimmed s : starts_ws (strip s) = false /\ ends_ws (strip s) = false.
Proof.
  unfold strip. split; [apply rstrip_starts, lstrip_starts | apply rstrip_ends].
Qed.

Lemma strip_id s : starts_ws s = false -> ends_ws s = false -> strip s = s.
Proof. intros H1 H2. unfold strip. rewrite (lstrip_id _ H1). apply rstrip_id, H2. Qed.

Lemma isolated_cons c s :
  isolated (c :: s) = true ->
  isolated s = true /\ (isspace c = true -> starts_ws s = false).
Proof.
  simpl. intros H. apply andb_true_iff in H. destruct H as [H1 H2].
  split; [exact H2|]. intros Ec. rewrite Ec in H1. simpl in H1.
  destruct (starts_ws s); [discriminate | reflexivity].
Qed.

Lemma sub_crlf_id s : isolated s = true -> sub_crlf s = s.
Proof.
  induction s as [|c t IH]; [reflexivity|]. intros H.
  destruct (isolated_cons _ _ H) as [Ht Hc]. specialize (IH Ht).
  destruct t as [|d r]; [reflexivity|].
  change (sub_crlf (c :: d :: r)) with
    (if ((c =? 13) && (d =? 10))%N then 10%N :: sub_crlf r else c :: sub_crlf (d :: r)).
  destruct ((c =? 13) && (d =? 10))%N eqn:E.
  - apply andb_true_iff in E. destruct E as [E1 E2].
    apply N.eqb_eq in E1, E2. subst c d.
    specialize (Hc eq_refl). discriminate Hc.
  - rewrite IH. reflexivity.
Qed.

Lemma collapse_id s : isolated s = true -> collapse_ws s = s.
Proof.
  unfold collapse_ws. induction s as [|c t IH]; [reflexivity|]. intros H.
  destruct (isolated_cons _ _ H) as [Ht Hc]. specialize (IH Ht).
  simpl. destruct (isspace c) eqn:Ec.
  - destruct t as [|d r]; [reflexivity|].
    specialize (Hc eq_refl). simpl in Hc. rewrite Hc. rewrite IH. reflexivity.
  - rewrite IH. reflexivity.
Qed.

Lemma collapse_true_starts s : starts_ws (collapse_from true s) = false.
Proof.
  induction s as [|c t IH]; [reflexivity|]. simpl.
  destruct (isspace c) eqn:Ec; [exact IH | simpl; exact Ec].
Qed.

Lemma collapse_false_starts s : starts_ws (collapse_from false s) = starts_ws s.
Proof.
  destruct s as [|c t]; [reflexivity|]. simpl.
  destruct (isspace c) eqn:Ec; [|simpl; exact Ec].
  destruct t as [|d r]; [simpl; exact Ec|].
  destruct (isspace d); simpl; [reflexivity | exact Ec].
Qed.

Lemma collapse_isolated s : forall b, isolated (collapse_from b s) = true.
Proof.
  induction s as [|c t IH]; intros b; [reflexivity|]. simpl.
  destruct (isspace c) eqn:Ec.
  - destruct b; [apply IH|].
    destruct t as [|d r]; [simpl; rewrite Ec; reflexivity|].
    destruct (isspace d) eqn:Ed.
    + change (isolated (32%N :: collapse_from true (d :: r)))
        with (negb (isspace 32 && starts_ws (collapse_from true (d :: r)))
              && isolated (collapse_from true (d :: r))).
      rewrite collapse_true_starts, IH. reflexivity.
    + change (isolated (c :: collapse_from false (d :: r)))
        with (negb (isspace c && starts_ws (collapse_from false (d :: r)))
              && isolated (collapse_from false (d :: r))).
      rewrite collapse_false_starts, IH. simpl. rewrite Ed, Ec. reflexivity.
  - change (isolated (c :: collapse_from false t))
      with (negb (isspace c && starts_ws (collapse_from false t))
            && isolated (collapse_from false t)).
    rewrite Ec, IH. reflexivity.
Qed.

Lemma ends_ws_tail c t : ends_ws (c :: t) = false -> ends_ws t = false.
Proof. rewrite ends_ws_cons. destruct t; [reflexivity | tauto]. Qed.

Lemma collapse_nil s : forall b,
  ends_ws s = false -> collapse_from b s = [] -> s = [].
Proof.
  induction s as [|c t IH]; intros b He Hn; [reflexivity|]. exfalso.
  pose proof (ends_ws_tail _ _ He) as Het.
  simpl in Hn. destruct (isspace c) eqn:Ec; [|discriminate].
  destruct b.
  - specialize (IH true Het Hn). subst t. simpl in He. congruence.
  - destruct t as [|d r]; [discriminate|]. destruct (isspace d); discriminate.
Qed.

Lemma collapse_ends s : forall b,
  ends_ws s = false -> ends_ws (collapse_from b s) = false.
Proof.
  induction s as [|c t IH]; intros b He; [reflexivity|].
  pose proof (ends_ws_tail _ _ He) as Het.
  assert (Hx : forall b' x, t <> [] ->
            ends_ws (x :: collapse_from b' t) = false).
  { intros b' x Hne. rewrite ends_ws_cons.
    destruct (collapse_from b' t) eqn:E.
    - apply collapse_nil in E; [contradiction | exact Het].
    - rewrite <- E. apply IH, Het. }
  simpl. destruct (isspace c) eqn:Ec.
  - destruct t as [|d r]; [simpl in He; congruence|].
    destruct b; [apply IH, Het|].
    destruct (isspace d); apply Hx; discriminate.
  - destruct t as [|d r]; [simpl; exact Ec|]. apply Hx. discriminate.
Qed.

Lemma collapse_tidy s :
  starts_ws s = false -> ends_ws s = false -> tidy (collapse_ws s).
Proof.
  intros H1 H2. unfold tidy, collapse_ws.
  rewrite collapse_false_starts.
  repeat split; [exact H1 | apply collapse_ends, H2 | apply collapse_isolated].
Qed.

(** *** The replacement table acts character by character *)


Lemma replace1_absent old new s :
  existsb (N.eqb old) s = false -> replace1 old new s = s.
Proof.
  induction s as [|c t IH]; [reflexivity|]. simpl. intros H.
  apply orb_false_iff in H. destruct H as [H1 H2].
  rewrite N.eqb_sym, H1. simpl. rewrite (IH H2). reflexivity.
Qed.

Lemma replace_step_spec text entry :
  replace_step text entry = replace1 (fst entry) (snd entry) text.
Proof.
  destruct entry as [old new]. simpl.
  destruct (existsb (N.eqb old) text) eqn:E; [reflexivity|].
  symmetry. apply replace1_absent, E.
Qed.

Lemma replace1_app old new a b :
  replace1 old new (a ++ b) = replace1 old new a ++ replace1 old new b.
Proof. unfold replace1. apply flat_map_app. Qed.

Lemma fold_replace_app tbl : forall a b,
  fold_left replace_step tbl (a ++ b)
  = fold_left replace_step tbl a ++ fold_left replace_step tbl b.
Proof.
  induction tbl as [|e tbl IH]; intros a b; [reflexivity|]. simpl.
  rewrite !replace_step_spec, replace1_app. apply IH.
Qed.

Lemma fold_replace_flat tbl s :
  fold_left replace_step tbl s
  = flat_map (fun c => fold_left replace_step tbl [c]) s.
Proof.
  induction s as [|c t IH]; simpl.
  - induction tbl as [|e tbl IHt]; [reflexivity|]. simpl.
    rewrite replace_step_spec. exact IHt.
  - rewrite <- IH. change (c :: t) with ([c] ++ t). apply fold_replace_app.
Qed.

Lemma apply_replacements_flat s :
  apply_replacements s = flat_map subst1 s.
Proof. apply fold_replace_flat. Qed.

Lemma fold_replace_nonkey tbl c :
  existsb (N.eqb c) (map fst tbl) = false ->
  fold_left replace_step tbl [c] = [c].
Proof.
  induction tbl as [|[old new] tbl IH]; [reflexivity|]. simpl. intros H.
  apply orb_false_iff in H. destruct H as [H1 H2].
  rewrite N.eqb_sym, H1. simpl. apply IH, H2.
Qed.

Lemma subst_ok_all c : subst_ok c = true.
Proof.
  destruct (existsb (N.eqb c) (map fst replacements)) eqn:E.
  - apply existsb_exists in E. destruct E as [k [Hin Hk]].
    apply N.eqb_eq in Hk. subst k.
    simpl in Hin.
    repeat (destruct Hin as [<- | Hin]; [vm_compute; reflexivity|]).
    contradiction.
  - assert (H1 : subst1 c = [c]) by (apply fold_replace_nonkey, E).
    unfold subst_ok. rewrite H1. cbn [forallb]. rewrite H1, N.eqb_refl.
    unfold nonws. destruct (isspace c); reflexivity.
Qed.

Lemma subst1_ws c :
  isspace c = true -> exists d, subst1 c = [d] /\ isspace d = true.
Proof.
  intros Hc. pose proof (subst_ok_all c) as H. unfold subst_ok in H.
  rewrite Hc in H. apply andb_true_iff in H. destruct H as [H _].
  destruct (subst1 c) as [|d [|? ?]]; try discriminate. eauto.
Qed.

Lemma subst1_nonws c :
  isspace c = false ->
  exists d r, subst1 c = d :: r /\ forallb nonws (d :: r) = true.
Proof.
  intros Hc. pose proof (subst_ok_all c) as H. unfold subst_ok in H.
  rewrite Hc in H. apply andb_true_iff in H. destruct H as [H _].
  destruct (subst1 c) as [|d r]; [discriminate|]. eauto.
Qed.



Lemma starts_ws_nonws_app b x :
  forallb nonws b = true -> b <> [] -> starts_ws (b ++ x) = false.
Proof.
  destruct b as [|d r]; [congruence|]. simpl. intros H _.
  apply andb_true_iff in H. destruct H as [H _].
  unfold nonws in H. destruct (isspace d); [discriminate | reflexivity].
Qed.

Lemma isolated_nonws_app b x :
  forallb nonws b = true -> isolated (b ++ x) = isolated x.
Proof.
  induction b as [|d r IH]; [reflexivity|]. simpl. intros H.
  apply andb_true_iff in H. destruct H as [Hd Hr].
  unfold nonws in Hd. destruct (isspace d); [discriminate|].
  simpl. apply IH, Hr.
Qed.

Lemma ends_ws_app b x : x <> [] -> ends_ws (b ++ x) = ends_ws x.
Proof.
  intros Hx. induction b as [|d r IH]; [reflexivity|].
  simpl app. rewrite ends_ws_cons.
  destruct (r ++ x) eqn:E; [|exact IH].
  destruct r; simpl in E; [contradiction | discriminate].
Qed.

Lemma ends_ws_nonws b : forallb nonws b = true -> ends_ws b = false.
Proof.
  induction b as [|d r IH]; [reflexivity|]. simpl forallb. intros H.
  apply andb_true_iff in H. destruct H as [Hd Hr].
  rewrite ends_ws_cons. destruct r; [|apply IH, Hr].
  unfold nonws in Hd. destruct (isspace d); [discriminate | reflexivity].
Qed.

Lemma flat_subst_starts s : starts_ws (flat_map subst1 s) = starts_ws s.
Proof.
  destruct s as [|c t]; [reflexivity|]. cbn [flat_map starts_ws].
  destruct (isspace c) eqn:Ec.
  - destruct (subst1_ws _ Ec) as [d [-> Hd]]. exact Hd.
  - destruct (subst1_nonws _ Ec) as [d [r [-> H]]].
    apply starts_ws_nonws_app; [exact H | discriminate].
Qed.

Lemma flat_subst_nil s : flat_map subst1 s = [] -> s = [].
Proof.
  destruct s as [|c t]; [reflexivity|]. cbn [flat_map]. intros H.
  apply app_eq_nil in H. destruct H as [H _].
  destruct (isspace c) eqn:Ec.
  - destruct (subst1_ws _ Ec) as [d [E _]]. congruence.
  - destruct (subst1_nonws _ Ec) as [d [r [E _]]]. congruence.
Qed.

Lemma flat_subst_isolated s :
  isolated s = true -> isolated (flat_map subst1 s) = true.
Proof.
  induction s as [|c t IH]; [reflexivity|]. intros H.
  destruct (isolated_cons _ _ H) as [Ht Hc]. specialize (IH Ht). cbn [flat_map].
  destruct (isspace c) eqn:Ec.
  - destruct (subst1_ws _ Ec) as [d [-> Hd]]. cbn [app].
    change (negb (isspace d && starts_ws (flat_map subst1 t))
            && isolated (flat_map subst1 t) = true).
    rewrite flat_subst_starts, (Hc eq_refl), IH, andb_false_r. reflexivity.
  - destruct (subst1_nonws _ Ec) as [d [r [-> H']]].
    rewrite isolated_nonws_app; assumption.
Qed.

Lemma flat_subst_ends s :
  ends_ws s = false -> ends_ws (flat_map subst1 s) = false.
Proof.
  induction s as [|c t IH]; [reflexivity|]. intros H.
  pose proof (ends_ws_tail _ _ H) as Ht. specialize (IH Ht). cbn [flat_map].
  destruct (flat_map subst1 t) eqn:E.
  - apply flat_subst_nil in E. subst t. cbn [ends_ws] in H. rewrite app_nil_r.
    destruct (subst1_nonws _ H) as [d [r [-> H']]].
    apply ends_ws_nonws, H'.
  - rewrite ends_ws_app; [exact IH | discriminate].
Qed.

Lemma apply_replacements_tidy s : tidy s -> tidy (apply_replacements s).
Proof.
  intros [H1 [H2 H3]]. rewrite apply_replacements_flat. repeat split.
  - rewrite flat_subst_starts. exact H1.
  - apply flat_subst_ends, H2.
  - apply flat_subst_isolated, H3.
Qed.

(** *** The line loop is the identity on tidy text *)

Lemma split_on_nonempty sep s : split_on sep s <> [].
Proof.
  destruct s as [|c t]; simpl; [discriminate|].
  destruct (c =? sep); [discriminate|].
  destruct (split_on sep t); discriminate.
Qed.

Lemma join_cons sep l ls :
  ls <> [] -> join sep (l :: ls) = l ++ sep ++ join sep ls.
Proof. destruct ls; [congruence | reflexivity]. Qed.

Lemma join_split s : join [10] (split_on 10 s) = s.
Proof.
  induction s as [|c t IH]; [reflexivity|]. simpl split_on.
  destruct (c =? 10) eqn:E.
  - apply N.eqb_eq in E. subst c.
    rewrite join_cons by apply split_on_nonempty. rewrite IH. reflexivity.
  - destruct (split_on 10 t) as [|l ls] eqn:Es.
    + exfalso. exact (split_on_nonempty _ _ Es).
    + rewrite <- IH. destruct ls as [|l' ls']; reflexivity.
Qed.

(** Shape of the pieces of a text with isolated whitespace and a clean
    end: every piece after the first is a good line, and the first one is
    described by the head of the text. *)
Lemma split_shape s :
  isolated s = true -> ends_ws s = false ->
  exists l ls,
    split_on 10 s = l :: ls /\ Forall good_line ls /\ ends_ws l = false /\
    (l = [] -> s = [] \/ exists t, s = 10 :: t) /\
    (forall c t, s = c :: t -> c <> 10 -> exists l', l = c :: l').
Proof.
  induction s as [|c t IH]; intros Hi He.
  - exists [], []. repeat split; auto. intros c t H. discriminate.
  - destruct (isolated_cons _ _ Hi) as [Hit Hc].
    pose proof (ends_ws_tail _ _ He) as Het.
    destruct (IH Hit Het) as [l [ls [Hs [Hg [Hel [Hnil Hhd]]]]]].
    simpl split_on. destruct (c =? 10) eqn:E.
    + apply N.eqb_eq in E. subst c.
      assert (Hst : starts_ws t = false) by (apply Hc; reflexivity).
      destruct t as [|d t'].
      { simpl in He. discriminate. }
      assert (Hd : d <> 10).
      { intros ->. simpl in Hst. discriminate. }
      destruct (Hhd d t' eq_refl Hd) as [l' ->].
      exists [], ((d :: l') :: ls). rewrite Hs.
      split; [reflexivity|]. split; [|split; [reflexivity|split]].
      * constructor; [|exact Hg].
        repeat split; [discriminate | exact Hst | exact Hel].
      * intros _. right. eauto.
      * intros c t H Hne. injection H as <- _. congruence.
    + exists (c :: l), ls. rewrite Hs.
      split; [reflexivity|]. split; [exact Hg|]. split; [|split].
      * rewrite ends_ws_cons. destruct l as [|x l0]; [|exact Hel].
        destruct (Hnil eq_refl) as [-> | [t' ->]].
        -- exact He.
        -- destruct (isspace c) eqn:Ec; [|reflexivity].
           specialize (Hc eq_refl). discriminate.
      * discriminate.
      * intros c0 t0 H _. injection H as <- _. eauto.
Qed.

Lemma map_strip_good ls : Forall good_line ls -> map strip ls = ls.
Proof.
  induction 1 as [|l ls [_ [H1 H2]] _ IH]; [reflexivity|].
  simpl. rewrite IH, strip_id by assumption. reflexivity.
Qed.

Lemma filter_good ls :
  Forall good_line ls ->
  filter (fun line : pystr =>
            negb (match line with [] => true | _ => false end)) ls = ls.
Proof.
  induction 1 as [|l ls [Hn _] _ IH]; [reflexivity|].
  simpl. rewrite IH. destruct l; [congruence | reflexivity].
Qed.

Lemma clean_lines_id s : tidy s -> clean_lines s = s.
Proof.
  intros [H1 [H2 H3]]. unfold clean_lines.
  destruct s as [|c t]; [reflexivity|].
  destruct (split_shape _ H3 H2) as [l [ls [Hs [Hg [Hel [_ Hhd]]]]]].
  assert (Hc : c <> 10).
  { intros ->. simpl in H1. discriminate. }
  destruct (Hhd c t eq_refl Hc) as [l' ->].
  assert (Hall : Forall good_line ((c :: l') :: ls)).
  { constructor; [|exact Hg]. repeat split; [discriminate | exact H1 | exact Hel]. }
  rewrite Hs, map_strip_good, filter_good, <- Hs by exact Hall.
  apply join_split.
Qed.

(** *** One pass produces tidy text, and tidy text is a fixed point *)

Lemma after_nfc_tidy s : tidy (after_nfc s).
Proof.
  unfold after_nfc.
  assert (H : tidy (apply_replacements (collapse_ws (strip (sub_crlf s))))).
  { apply apply_replacements_tidy.
    destruct (strip_trimmed (sub_crlf s)) as [H1 H2].
    apply collapse_tidy; assumption. }
  rewrite (clean_lines_id _ H). exact H.
Qed.

Lemma after_nfc_eq s :
  after_nfc s = apply_replacements (collapse_ws (strip (sub_crlf s))).
Proof.
  unfold after_nfc. apply clean_lines_id.
  apply apply_replacements_tidy.
  destruct (strip_trimmed (sub_crlf s)) as [H1 H2].
  apply collapse_tidy; assumption.
Qed.


Section Idempotence.

Variable nfc : pystr -> pystr.

(** Two facts of Unicode about [unicodedata.normalize('NFC', _)]: it is
    idempotent, and the cleaning steps keep a normalised string
    normalised (they remove or keep a separator between characters and
    substitute starters that take part in no canonical composition). *)
Hypothesis nfc_idempotent : forall s, nfc (nfc s) = nfc s.
Hypothesis nfc_stable : forall s, nfc s = s -> nfc (after_nfc s) = after_nfc s.


End Idempotence.


End NormalizerFacts.

(** ** The quality evaluator *)

Module EvaluateFacts.
Import Evaluate Reference.

Lemma score_image_shape w lang config tmp i img s :
  score_image w lang config tmp i img = Ok s ->
  exists ocr_result col zs,
    image_to_string w (FromImage img) lang config = Ok ocr_result /\
    image_to_data_dict w (FromImage img) lang config = Ok (Some col) /\
    ints_of_cells w (filter not_minus1 col) = Ok zs /\
    s = Scored i
          (total_score lang (Z.of_nat (List.length (strip ocr_result)))
             (avg_of zs) (korean_ratio_of ocr_result) (np_std w img))
          (Z.of_nat (List.length (strip ocr_result))) (avg_of zs)
          (korean_ratio_of ocr_result)
          (Qmin1 (np_std w img / (80 # 1))).
Proof.
  unfold score_image. intros H.
  destruct (imwrite w tmp img) as [u|e]; [|discriminate]. simpl in H.
  destruct (image_to_string w (FromImage img) lang config) as [t|e] eqn:E1;
    [|discriminate]. simpl in H.
  destruct (image_to_data_dict w (FromImage img) lang config)
    as [[col|]|e] eqn:E2; try discriminate. simpl in H.
  destruct (ints_of_cells w (filter not_minus1 col)) as [zs|e] eqn:E3;
    [|discriminate]. simpl in H.
  injection H as <-. exists t, col, zs. repeat split; auto.
Qed.

Lemma score_or_zero_index w lang config tmp i img :
  index_of (score_or_zero w lang config tmp i img) = Ok i.
Proof.
  unfold score_or_zero.
  destruct (score_image w lang config tmp i img) as [s|e] eqn:E; [|reflexivity].
  apply score_image_shape in E.
  destruct E as (t & col & zs & _ & _ & _ & ->). reflexivity.
Qed.




Lemma inject_Z_pos n : (0 < n)%Z -> (0 < inject_Z n)%Q.
Proof. intros H. change 0%Q with (inject_Z 0). rewrite <- Zlt_Qlt. exact H. Qed.













(** C10: with an empty list of variants the evaluator raises
    [ValueError], whatever the language argument. *)
Theorem evaluate_empty_raises (w : World) (lang : string) :
  evaluate_preprocessing_quality w [] lang = Raise ValueError.
Proof. reflexivity. Qed.




(** C6, as stated, fails in the 'kor' branch: for one hundred Hangul
    syllables read with full confidence the computed score is 1.3, while
    the documented combination of the four terms gives 1. *)
Lemma score_differs_from_documented :
  exists s tl avg kr cs,
    score_image Scenarios.hangul_page "kor" (psm_config "kor") temp_eval 0
      Scenarios.page = Ok (Scored 0 s tl avg kr cs) /\
    (OCRConfig.MIN_TEXT_LENGTH <= tl)%Z /\
    (kr == 1)%Q /\
    (s == 13 # 10)%Q /\
    (documented_score "kor" (Qmin1 (inject_Z tl / (100 # 1))) (avg / (100 # 1))
       kr cs == 1)%Q.
Proof.
  do 5 eexists. split; [vm_compute; reflexivity|].
  split; [vm_compute; discriminate|].
  split; [reflexivity|]. split; reflexivity.
Qed.

(** C6, amended: for a variant whose trial recognition succeeds with a
    text of at least [MIN_TEXT_LENGTH] characters, the score is the
    documented weighted sum in which the script term is the Hangul ratio
    multiplied by [KOREAN_RATIO_WEIGHT] (2.0); without 'kor' it is
    0.4*length + 0.4*confidence + 0.2*contrast. *)
Theorem score_formula (w : World) (lang config tmp : string) (i : nat)
    (img : image) (s : Q) (tl : Z) (avg kr cs : Q) :
  score_image w lang config tmp i img = Ok (Scored i s tl avg kr cs) ->
  (OCRConfig.MIN_TEXT_LENGTH <= tl)%Z ->
  exists ocr_result,
    image_to_string w (FromImage img) lang config = Ok ocr_result /\
    tl = Z.of_nat (List.length (strip ocr_result)) /\
    kr = korean_ratio_of ocr_result /\
    cs = Qmin1 (np_std w img / (80 # 1)) /\
    (s == documented_score lang (Qmin1 (inject_Z tl / (100 # 1)))
            (avg / (100 # 1)) (kr * OCRConfig.KOREAN_RATIO_WEIGHT) cs)%Q.
Proof.
  intros E Htl. apply score_image_shape in E.
  destruct E as (t & col & zs & Et & _ & _ & E).
  injection E as -> -> -> -> ->. exists t.
  split; [exact Et|]. split; [reflexivity|]. split; [reflexivity|].
  split; [reflexivity|].
  unfold total_score, documented_score.
  replace (Z.of_nat (List.length (strip t)) <? OCRConfig.MIN_TEXT_LENGTH)%Z
    with false by (symmetry; apply Z.ltb_ge; exact Htl).
  destruct (OCRConfig.py_in "kor" lang); ring.
Qed.

Lemma score_formula_witness :
  exists s tl avg kr cs,
    score_image Scenarios.hangul_page "kor" (psm_config "kor") temp_eval 0
      Scenarios.page = Ok (Scored 0 s tl avg kr cs) /\
    (s == documented_score "kor" (Qmin1 (inject_Z tl / (100 # 1)))
            (avg / (100 # 1)) (kr * OCRConfig.KOREAN_RATIO_WEIGHT) cs)%Q.
Proof.
  do 5 eexists.
  assert (E : score_image Scenarios.hangul_page "kor" (psm_config "kor")
                temp_eval 0 Scenarios.page
              = Ok (Scored 0 (130000000 # 100000000) 100 (100 # 1) (100 # 100) 1))
    by (vm_compute; reflexivity).
  split; [exact E|].
  destruct (score_formula _ _ _ _ _ _ _ _ _ _ _ E) as (t & _ & _ & _ & _ & H).
  - vm_compute. discriminate.
  - exact H.
Defined.

End EvaluateFacts.

(** ** The layout extractor *)

Module LayoutFacts.
Import Layout Reference.





Lemma in_filter_map {A B : Type} (f : A -> option B) l b :
  In b (filter_map f l) -> exists a, In a l /\ f a = Some b.
Proof.
  induction l as [|a l IH]; simpl; [contradiction|].
  destruct (f a) as [b'|] eqn:E.
  - intros [<- | H]; [exists a; split; [now left | exact E]|].
    destruct (IH H) as (a' & Ha & Hf). exists a'. split; [now right | exact Hf].
  - intros H. destruct (IH H) as (a' & Ha & Hf).
    exists a'. split; [now right | exact Hf].
Qed.

Lemma layout_blocks_built data blk :
  In blk (blocks (layout_of_frame data)) ->
  exists b, build_block (has_line_num data) (surviving data b) = Some blk.
Proof.
  unfold layout_of_frame, surviving.
  destruct (has_text data); [|contradiction].
  destruct (filter keep_text (rows data)) as [|k kept]; [contradiction|].
  simpl blocks.
  destruct (has_block_num data && has_conf data); [|contradiction].
  intros H. apply in_filter_map in H. destruct H as (b & _ & Hb).
  exists b. exact Hb.
Qed.

(** Whatever happens, the extractor returns the empty result or the
    layout of a table the engine produced. *)
Lemma extract_outcomes w image_path lang :
  extract_text_with_layout w image_path lang = empty_result \/
  exists best lang' data,
    image_to_data_frame w (FromImage best) lang' OCRConfig.DEFAULT_CONFIG
      = Ok data /\
    lang' = effective_lang
              (snd (Probe.check_tesseract_availability w lang)) lang /\
    extract_text_with_layout w image_path lang = layout_of_frame data.
Proof.
  unfold extract_text_with_layout, extract_body.
  destruct (Probe.check_tesseract_availability w lang) as [ti li].
  destruct ti; simpl; [|now left].
  unfold extract_from.
  destruct (imread w image_path) as [[img|]|e]; simpl; try (now left).
  destruct (Variants.preprocess_image w image_path) as [images|e]; simpl;
    [|now left].
  destruct (Evaluate.evaluate_preprocessing_quality w images
              (effective_lang li lang)) as [[best info]|e]; simpl; [|now left].
  destruct (image_to_data_frame w (FromImage best) (effective_lang li lang)
              OCRConfig.DEFAULT_CONFIG) as [data|e] eqn:E; simpl; [|now left].
  right. exists best, (effective_lang li lang), data.
  split; [exact E|]. split; reflexivity.
Qed.



(** C8: the rectangle of a returned block is not the minimal enclosing
    rectangle. For a block of two tokens, one 100 wide at left 0 and one
    10 wide at left 50 lying inside it, the extractor returns a rectangle
    150 wide and 25 high, while the union of the two is 100 wide and 20
    high. *)
Theorem block_rect_exceeds_union :
  surviving (Scenarios.table [Scenarios.wide; Scenarios.narrow]) 1
    = [Scenarios.wide; Scenarios.narrow] /\
  map brect (blocks (extract_text_with_layout Scenarios.nested_tokens
                       "scan.png" "eng"))
    = [{| x := 0; y := 0; width := 150; height := 25 |}] /\
  union_rect Scenarios.wide [Scenarios.narrow]
    = {| x := 0; y := 0; width := 100; height := 20 |}.
Proof. repeat split; vm_compute; reflexivity. Qed.

(** C1: without an engine the extractor returns the empty result, the
    very value it returns for a page without text on a working machine;
    the [RuntimeError] raised inside is caught by the function itself. *)
Theorem extract_without_engine_is_silent :
  Probe.check_tesseract_availability Scenarios.no_engine "kor+eng"
    = (false, false) /\
  extract_body Scenarios.no_engine "scan.png" "kor+eng" = Raise RuntimeError /\
  extract_text_with_layout Scenarios.no_engine "scan.png" "kor+eng"
    = {| full_text := []; blocks := [] |} /\
  extract_text_with_layout Scenarios.blank_page "scan.png" "kor+eng"
    = {| full_text := []; blocks := [] |}.
Proof. repeat split; vm_compute; reflexivity. Qed.




End LayoutFacts.

(** ** The variant generator *)

Module VariantsFacts.
Import Variants Reference.








End VariantsFacts.

(** ** The language cascade *)

Module CascadeFacts.
Import Cascade Reference.










End CascadeFacts.

(** ** Region merging *)

Module RegionsFacts.
Import Regions.
Local Open Scope Z_scope.

Lemma within_refl a : within a a.
Proof. destruct a as [[[x y] w] h]. simpl. lia. Qed.

Lemma within_trans a b c : within a b -> within b c -> within a c.
Proof.
  destruct a as [[[x y] w] h], b as [[[x1 y1] w1] h1], c as [[[x2 y2] w2] h2].
  simpl. lia.
Qed.

Lemma union_covers r m : within r (union r m) /\ within m (union r m).
Proof.
  destruct r as [[[x y] w] h], m as [[[mx my] mw] mh]. simpl. lia.
Qed.

Lemma covered_mono a l l' :
  (forall m, In m l -> covered m l') -> covered a l -> covered a l'.
Proof.
  intros H (m & Hm & Ha). destruct (H _ Hm) as (m' & Hm' & Hmm').
  exists m'. split; [exact Hm' | eapply within_trans; eassumption].
Qed.

Lemma merge_into_covers r : forall merged l,
  merge_into r merged = Some l ->
  covered r l /\ (forall m, In m merged -> covered m l) /\
  List.length l = List.length merged.
Proof.
  induction merged as [|m rest IH]; intros l H; simpl in H; [discriminate|].
  destruct (overlaps r m).
  - injection H as <-. destruct (union_covers r m) as [Hr Hm].
    split; [exists (union r m); split; [now left | exact Hr]|].
    split; [|reflexivity].
    intros a [<- | Ha].
    + exists (union r m). split; [now left | exact Hm].
    + exists a. split; [now right | apply within_refl].
  - destruct (merge_into r rest) as [rest'|] eqn:E; [|discriminate].
    injection H as <-. destruct (IH _ eq_refl) as ((c & Hc & Hrc) & Hall & Hlen).
    split; [exists c; split; [now right | exact Hrc]|].
    split; [|simpl; now rewrite Hlen].
    intros a [<- | Ha].
    + exists m. split; [now left | apply within_refl].
    + destruct (Hall _ Ha) as (c' & Hc' & Hac').
      exists c'. split; [now right | exact Hac'].
Qed.

Lemma merge_step_covers merged r :
  covered r (merge_step merged r) /\
  (forall m, In m merged -> covered m (merge_step merged r)).
Proof.
  unfold merge_step. destruct (merge_into r merged) as [l|] eqn:E.
  - destruct (merge_into_covers _ _ _ E) as (H1 & H2 & _). split; assumption.
  - split.
    + exists r. split; [apply in_or_app; right; now left | apply within_refl].
    + intros m Hm. exists m.
      split; [apply in_or_app; now left | apply within_refl].
Qed.

Lemma fold_covers regions : forall merged a,
  In a regions \/ covered a merged ->
  covered a (fold_left merge_step regions merged).
Proof.
  induction regions as [|r rs IH]; intros merged a H; simpl.
  - destruct H as [[] | H]. exact H.
  - apply IH. destruct (merge_step_covers merged r) as [Hr Hm].
    destruct H as [[<- | Ha] | Hc].
    + right. exact Hr.
    + left. exact Ha.
    + right. eapply covered_mono; eassumption.
Qed.

Lemma merge_step_length merged r :
  (List.length merged <= List.length (merge_step merged r)
   <= S (List.length merged))%nat /\ merge_step merged r <> [].
Proof.
  unfold merge_step. destruct (merge_into r merged) as [l|] eqn:E.
  - destruct (merge_into_covers _ _ _ E) as (_ & _ & Hlen). rewrite Hlen.
    split; [lia|]. destruct merged; [discriminate|].
    destruct l; [discriminate | congruence].
  - rewrite length_app. simpl. split; [lia|].
    destruct merged; discriminate.
Qed.

Lemma fold_length regions : forall merged,
  (List.length merged <= List.length (fold_left merge_step regions merged)
   <= List.length merged + List.length regions)%nat.
Proof.
  induction regions as [|r rs IH]; intros merged; simpl; [lia|].
  pose proof (IH (merge_step merged r)).
  pose proof (merge_step_length merged r) as [? _]. lia.
Qed.

Lemma merge_into_apart r : forall merged,
  forallb (fun m => negb (overlaps r m)) merged = true ->
  merge_into r merged = None.
Proof.
  induction merged as [|m rest IH]; [reflexivity|]. simpl. intros H.
  apply andb_true_iff in H. destruct H as [H1 H2].
  apply negb_true_iff in H1. rewrite H1, (IH H2). reflexivity.
Qed.

Lemma apart_snoc : forall merged r rs,
  apart (merged ++ r :: rs) = true ->
  forallb (fun m => negb (overlaps r m)) merged = true.
Proof.
  induction merged as [|m rest IH]; intros r rs H; [reflexivity|].
  simpl in H. apply andb_true_iff in H. destruct H as [H1 H2].
  simpl. rewrite (IH _ _ H2), andb_true_r.
  rewrite forallb_app in H1. apply andb_true_iff in H1. destruct H1 as [_ H1].
  simpl in H1. apply andb_true_iff in H1. tauto.
Qed.

Lemma fold_apart regions : forall merged,
  apart (merged ++ regions) = true ->
  fold_left merge_step regions merged = merged ++ regions.
Proof.
  induction regions as [|r rs IH]; intros merged H; simpl.
  - now rewrite app_nil_r.
  - unfold merge_step at 2. rewrite (merge_into_apart _ _ (apart_snoc _ _ _ H)).
    rewrite IH; rewrite <- app_assoc; [reflexivity | exact H].
Qed.

(** Every input region lies inside one of the returned regions. *)
Theorem merge_covers_input (regions : list region) (a : region) :
  In a regions -> covered a (merge_text_regions regions).
Proof.
  intros Ha. unfold merge_text_regions.
  destruct regions as [|r rs]; [contradiction|].
  apply fold_covers. now left.
Qed.

Lemma merge_covers_input_witness :
  covered (5, 5, 10, 10) (merge_text_regions [(0, 0, 10, 10); (5, 5, 10, 10)]) /\
  merge_text_regions [(0, 0, 10, 10); (5, 5, 10, 10)] = [(0, 0, 15, 15)].
Proof.
  split; [|reflexivity].
  apply (merge_covers_input [(0, 0, 10, 10); (5, 5, 10, 10)] (5, 5, 10, 10)).
  simpl. right. left. reflexivity.
Defined.

(** Merging never adds regions, and it returns at least one region for a
    non-empty input. *)
Theorem merge_length_bounds (regions : list region) :
  (List.length (merge_text_regions regions) <= List.length regions)%nat /\
  (regions <> [] -> merge_text_regions regions <> []).
Proof.
  unfold merge_text_regions. destruct regions as [|r rs]; [split; [lia | congruence]|].
  pose proof (fold_length (r :: rs) []) as H. simpl List.length in H.
  split; [simpl List.length; lia|]. intros _.
  simpl fold_left. pose proof (fold_length rs (merge_step [] r)) as H1.
  pose proof (merge_step_length [] r) as [H2 H3].
  destruct (merge_step [] r) eqn:E; [congruence|].
  destruct (fold_left merge_step rs (r0 :: l)); [simpl in H1; lia | discriminate].
Qed.

(** Regions none of which touches an earlier one are returned as given,
    in the same order. *)
Theorem merge_apart_unchanged (regions : list region) :
  apart regions = true -> merge_text_regions regions = regions.
Proof.
  intros H. unfold merge_text_regions. destruct regions as [|r rs]; [reflexivity|].
  apply (fold_apart (r :: rs) []). exact H.
Qed.

Lemma merge_apart_unchanged_witness :
  merge_text_regions [(0, 0, 10, 10); (20, 0, 10, 10); (0, 20, 10, 10)]
    = [(0, 0, 10, 10); (20, 0, 10, 10); (0, 20, 10, 10)].
Proof.
  apply (merge_apart_unchanged [(0, 0, 10, 10); (20, 0, 10, 10); (0, 20, 10, 10)]).
  reflexivity.
Defined.

End RegionsFacts.

(** ** Language codes and the availability probe *)

Module ConfigFacts.
Import OCRConfig.
Local Open Scope string_scope.

Lemma split_plus_nonempty s : split_plus s <> [].
Proof.
  destruct s as [|c rest]; simpl; [discriminate|].
  destruct (Ascii.eqb c "+"); [discriminate|].
  destruct (split_plus rest); discriminate.
Qed.

Lemma split_plus_app a b :
  split_plus (a ++ String "+" b) = (split_plus a ++ split_plus b)%list.
Proof.
  induction a as [|c a IH]; simpl; [reflexivity|].
  destruct (Ascii.eqb c "+"); [now rewrite IH|].
  rewrite IH. pose proof (split_plus_nonempty a) as Hne.
  destruct (split_plus a) as [|l ls]; [congruence | reflexivity].
Qed.

Lemma prefix_plus c rest :
  String.prefix "+" (String c rest) = Ascii.eqb c "+".
Proof.
  cbn [String.prefix]. destruct (ascii_dec "+" c) as [E | Hne].
  - subst c. destruct rest; reflexivity.
  - symmetry. apply Ascii.eqb_neq. congruence.
Qed.

Lemma py_in_plus_app a b : py_in "+" (a ++ String "+" b) = true.
Proof.
  induction a as [|c a IH].
  - change ("" ++ String "+" b) with (String "+" b).
    cbn [py_in]. rewrite prefix_plus. reflexivity.
  - change (String c a ++ String "+" b) with (String c (a ++ String "+" b)).
    cbn [py_in]. rewrite IH. apply orb_true_r.
Qed.

Lemma split_plus_single a : py_in "+" a = false -> split_plus a = [a].
Proof.
  induction a as [|c a IH]; [reflexivity|]. cbn [py_in]. rewrite prefix_plus.
  intros H. apply orb_false_iff in H. destruct H as [H1 H2].
  simpl. rewrite H1, (IH H2). reflexivity.
Qed.

(** The page segmentation mode chosen for a configuration is 3 or 6,
    the two values the configuration string is built from. *)
Theorem get_optimal_psm_range (lang_code : string) :
  get_optimal_psm lang_code = 3%Z \/ get_optimal_psm lang_code = 6%Z.
Proof.
  unfold get_optimal_psm.
  destruct (py_in "+" lang_code);
    repeat match goal with
    | |- context [if ?b then _ else _] => destruct b
    end; auto.
Qed.

(** For a combined configuration the mode is the one of its first
    language; the languages after the first '+' play no part. *)
Theorem get_optimal_psm_first_part (a b : string) :
  py_in "+" a = false ->
  get_optimal_psm (a ++ String "+" b) = get_optimal_psm a.
Proof.
  intros Ha. unfold get_optimal_psm.
  rewrite py_in_plus_app, Ha, split_plus_app, (split_plus_single _ Ha).
  reflexivity.
Qed.

Lemma get_optimal_psm_first_part_witness :
  get_optimal_psm ("kor" ++ String "+" "eng") = get_optimal_psm "kor" /\
  get_optimal_psm "kor+eng" = 6%Z /\ get_optimal_psm "eng+kor" = 3%Z.
Proof.
  split; [|split; reflexivity].
  apply (get_optimal_psm_first_part "kor" "eng"). reflexivity.
Defined.

(** The probe never reports a language pack on a machine where it
    reports no engine. *)
Theorem probe_no_pack_without_engine (w : World) (lang : string) :
  fst (Probe.check_tesseract_availability w lang) = false ->
  snd (Probe.check_tesseract_availability w lang) = false.
Proof.
  unfold Probe.check_tesseract_availability.
  destruct (tesseract_found w); [|reflexivity].
  destruct (list_langs w); simpl; [discriminate | reflexivity].
Qed.

Lemma probe_no_pack_without_engine_witness :
  snd (Probe.check_tesseract_availability Scenarios.no_engine "eng") = false.
Proof.
  apply (probe_no_pack_without_engine Scenarios.no_engine "eng"). reflexivity.
Defined.

(** A configuration joined with '+' is reported installed exactly when
    both sides are. *)
Theorem probe_combined (w : World) (a b : string) :
  snd (Probe.check_tesseract_availability w (a ++ String "+" b))
  = snd (Probe.check_tesseract_availability w a)
    && snd (Probe.check_tesseract_availability w b).
Proof.
  unfold Probe.check_tesseract_availability.
  destruct (tesseract_found w); [|reflexivity].
  destruct (list_langs w) as [output|]; [|reflexivity].
  simpl. rewrite split_plus_app. apply forallb_app.
Qed.

End ConfigFacts.

(** ** Further facts on the evaluator, the generator and the extractor *)

Module PipelineFacts.
Import Evaluate Layout Reference.

Lemma Qltb_false a b : Variants.Qltb a b = false -> (b <= a)%Q.
Proof.
  unfold Variants.Qltb. intros H. apply negb_false_iff in H.
  apply Qle_bool_iff, H.
Qed.

Lemma Qltb_true a b : Variants.Qltb a b = true -> (a < b)%Q.
Proof.
  unfold Variants.Qltb. intros H. apply negb_true_iff in H.
  apply Qnot_le_lt. intros Hle. apply Qle_bool_iff in Hle. congruence.
Qed.

Lemma max_from_greatest rest : forall best s,
  In s (best :: rest) -> (score_of s <= score_of (max_from best rest))%Q.
Proof.
  induction rest as [|r rest IH]; intros best s Hin.
  - destruct Hin as [<- | []]. simpl. apply Qle_refl.
  - simpl. destruct (Variants.Qltb (score_of best) (score_of r)) eqn:E.
    + destruct Hin as [<- | Hin].
      * apply Qle_trans with (score_of r).
        -- apply Qlt_le_weak, Qltb_true, E.
        -- apply IH. now left.
      * apply IH. exact Hin.
    + destruct Hin as [<- | [<- | Hin]].
      * apply IH. now left.
      * apply Qle_trans with (score_of best).
        -- apply Qltb_false, E.
        -- apply IH. now left.
      * apply IH. now right.
Qed.

(** When the evaluator returns a scored entry, the variant returned is
    the one at the entry's index and no variant has a greater score. *)
Theorem evaluate_returns_best (w : World) (images : list image) (lang : string)
    (best : image) (info : score_info) (i : nat) :
  evaluate_preprocessing_quality w images lang = Ok (best, info) ->
  index_of info = Ok i ->
  nth_error images i = Some best /\
  forall s, In s (score_all w lang (psm_config lang) temp_eval 0 images) ->
            (score_of s <= score_of info)%Q.
Proof.
  unfold evaluate_preprocessing_quality.
  destruct images as [|first rest]; [discriminate|].
  destruct (Probe.check_tesseract_availability w lang) as [ti li].
  destruct ti; simpl.
  2:{ intros H Hi. injection H as <- <-. simpl in Hi. discriminate. }
  unfold evaluate_body.
  destruct (if path_exists w temp_eval then remove_file w temp_eval else Ok tt)
    as [u|e]; simpl.
  2:{ intros H Hi. injection H as <- <-. simpl in Hi. discriminate. }
  set (s0 := score_or_zero w lang (psm_config lang) temp_eval 0 first).
  set (rs := score_all w lang (psm_config lang) temp_eval 1 rest).
  destruct (index_of (max_from s0 rs)) as [k|e] eqn:Ek; simpl.
  2:{ intros H Hi. injection H as <- <-. simpl in Hi. discriminate. }
  destruct (nth_error (first :: rest) k) as [img|] eqn:En.
  2:{ intros H Hi. injection H as <- <-. simpl in Hi. discriminate. }
  intros H Hi. injection H as <- <-. rewrite Ek in Hi. injection Hi as <-.
  split; [exact En|]. intros s Hs. apply max_from_greatest. exact Hs.
Qed.

Lemma evaluate_returns_best_witness :
  nth_error [Scenarios.page] 0 = Some Scenarios.page /\
  forall s,
    In s (score_all Scenarios.hangul_page "kor" (psm_config "kor") temp_eval 0
            [Scenarios.page]) ->
    (score_of s
     <= score_of (Scored 0 (130000000 # 100000000) 100 (100 # 1) (100 # 100) 1))%Q.
Proof.
  apply (evaluate_returns_best Scenarios.hangul_page [Scenarios.page] "kor").
  - vm_compute. reflexivity.
  - reflexivity.
Defined.

Lemma Qsum_above l :
  Forall (fun q => (30 < q)%Q) l ->
  (inject_Z (Z.of_nat (List.length l)) * (30 # 1) <= Qsum l)%Q /\
  (l <> [] -> (inject_Z (Z.of_nat (List.length l)) * (30 # 1) < Qsum l)%Q).
Proof.
  induction 1 as [|q l Hq _ [IH _]].
  - split; [unfold Qle; simpl; lia | congruence].
  - assert (E : (inject_Z (Z.of_nat (List.length (q :: l)))
                 == inject_Z (Z.of_nat (List.length l)) + 1)%Q).
    { simpl List.length. rewrite Nat2Z.inj_succ. unfold Z.succ.
      rewrite inject_Z_plus. reflexivity. }
    simpl Qsum. rewrite E. split; [|intros _]; lra.
Qed.

Lemma confident_above t :
  confident t = true -> (30 < tk_conf t)%Q.
Proof. unfold confident. intros H. apply Qltb_true in H. exact H. Qed.

(** Every block the extractor returns has a mean confidence above the
    threshold of 30. *)
Theorem block_confidence_above_threshold (w : World)
    (image_path lang : string) (blk : block) :
  In blk (blocks (extract_text_with_layout w image_path lang)) ->
  (inject_Z OCRConfig.CONFIDENCE_THRESHOLD < confidence blk)%Q.
Proof.
  intros Hin.
  destruct (LayoutFacts.extract_outcomes w image_path lang)
    as [E | (best & l & data & _ & _ & E)]; rewrite E in Hin; [contradiction|].
  apply LayoutFacts.layout_blocks_built in Hin. destruct Hin as (b & Hb).
  unfold build_block in Hb.
  destruct (surviving data b) as [|t0 rest] eqn:Et; [discriminate|].
  destruct (block_lines (has_line_num data) (t0 :: rest)); [discriminate|].
  injection Hb as <-. simpl confidence.
  assert (Hall : Forall (fun q => (30 < q)%Q) (map tk_conf (t0 :: rest))).
  { rewrite <- Et. unfold surviving, block_tokens.
    apply Forall_forall. intros q Hq. apply in_map_iff in Hq.
    destruct Hq as (t & <- & Ht). apply filter_In in Ht.
    apply confident_above, Ht. }
  destruct (Qsum_above _ Hall) as [_ Hlt].
  rewrite length_map in Hlt.
  apply Qlt_shift_div_l.
  - apply EvaluateFacts.inject_Z_pos. simpl List.length. lia.
  - change (inject_Z OCRConfig.CONFIDENCE_THRESHOLD) with (30 # 1)%Q.
    rewrite Qmult_comm. apply Hlt. discriminate.
Qed.

Lemma block_confidence_above_threshold_witness :
  (inject_Z OCRConfig.CONFIDENCE_THRESHOLD
   < confidence {| text := Scenarios.hello ++ [32%N] ++ Scenarios.world;
                   brect := {| x := 0; y := 0; width := 150; height := 25 |};
                   confidence := 180 # 2 |})%Q.
Proof.
  apply (block_confidence_above_threshold Scenarios.nested_tokens "scan.png" "eng").
  vm_compute. left. reflexivity.
Defined.

(** With no engine, an unreadable image or a failing variant generator,
    the extractor returns the empty result. *)
Theorem extract_falls_back_to_empty (w : World) (image_path lang : string) :
  fst (Probe.check_tesseract_availability w lang) = false \/
  imread w image_path = Ok None \/
  (exists e, Variants.preprocess_image w image_path = Raise e) ->
  extract_text_with_layout w image_path lang = empty_result.
Proof.
  unfold extract_text_with_layout, extract_body.
  destruct (Probe.check_tesseract_availability w lang) as [ti li].
  simpl fst. intros [-> | H]; [reflexivity|].
  destruct ti; [|reflexivity]. simpl negb. cbv iota. unfold extract_from.
  destruct H as [-> | (e & ->)]; [reflexivity|].
  destruct (imread w image_path) as [[img|]|e']; reflexivity.
Qed.

Lemma extract_falls_back_to_empty_witness :
  extract_text_with_layout Scenarios.sharpen_fails "scan.png" "eng"
    = empty_result.
Proof.
  apply (extract_falls_back_to_empty Scenarios.sharpen_fails "scan.png" "eng").
  right. right. exists RuntimeError. vm_compute. reflexivity.
Defined.

Lemma strip_nil_of_nil s : s = [] -> strip s = [].
Proof. intros ->. reflexivity. Qed.

Lemma keep_text_nonempty t : keep_text t = true -> text_of t <> [].
Proof.
  unfold keep_text, text_of. destruct (tk_text t) as [s|]; [|discriminate].
  intros H E. rewrite (strip_nil_of_nil _ E) in H. discriminate.
Qed.

Lemma join_head_nonempty sep l ls : l <> [] -> join sep (l :: ls) <> [].
Proof.
  intros Hl. simpl. destruct ls; [exact Hl|].
  destruct l; [congruence | discriminate].
Qed.

(** A result without text has no blocks: blocks are built only from rows
    that also contribute to [full_text]. *)
Theorem extract_blocks_need_text (w : World) (image_path lang : string) :
  full_text (extract_text_with_layout w image_path lang) = [] ->
  blocks (extract_text_with_layout w image_path lang) = [].
Proof.
  destruct (LayoutFacts.extract_outcomes w image_path lang)
    as [E | (best & l & data & _ & _ & E)]; rewrite E; [reflexivity|].
  unfold layout_of_frame. destruct (has_text data); [|reflexivity].
  destruct (filter keep_text (rows data)) as [|k kept] eqn:Ek; [reflexivity|].
  simpl full_text. intros H. exfalso.
  assert (Hk : keep_text k = true).
  { assert (Hin : In k (filter keep_text (rows data))) by (rewrite Ek; now left).
    apply filter_In in Hin. tauto. }
  exact (join_head_nonempty [32%N] (text_of k) (map text_of kept)
           (keep_text_nonempty _ Hk) H).
Qed.

Lemma extract_blocks_need_text_witness :
  blocks (extract_text_with_layout Scenarios.blank_page "scan.png" "eng") = [].
Proof.
  apply (extract_blocks_need_text Scenarios.blank_page "scan.png" "eng").
  vm_compute. reflexivity.
Defined.

(** The generator raises nothing but [ValueError] and [RuntimeError]: a
    missing file surfaces as [RuntimeError] (the [FileNotFoundError] is
    wrapped), a file that cannot be decoded as [ValueError]. *)
Theorem preprocess_failure_classes (w : World) (image_path : string) (e : exn) :
  Variants.preprocess_image w image_path = Raise e ->
  (e = ValueError \/ e = RuntimeError) /\
  (path_exists w image_path = false -> e = RuntimeError) /\
  (path_exists w image_path = true -> imread w image_path = Ok None ->
   e = ValueError).
Proof.
  unfold Variants.preprocess_image. intros H.
  split; [|split].
  - destruct (Variants.preprocess_body w image_path) as [r|[]];
      try discriminate; injection H as <-; auto.
  - intros Hp. unfold Variants.preprocess_body in H. rewrite Hp in H.
    simpl in H. congruence.
  - intros Hp Hr. unfold Variants.preprocess_body in H. rewrite Hp, Hr in H.
    simpl in H. congruence.
Qed.

Lemma preprocess_failure_classes_witness :
  (RuntimeError = ValueError \/ RuntimeError = RuntimeError) /\
  (path_exists Scenarios.sharpen_fails "scan.png" = false ->
   RuntimeError = RuntimeError) /\
  (path_exists Scenarios.sharpen_fails "scan.png" = true ->
   imread Scenarios.sharpen_fails "scan.png" = Ok None ->
   RuntimeError = ValueError).
Proof.
  apply (preprocess_failure_classes Scenarios.sharpen_fails "scan.png").
  vm_compute. reflexivity.
Defined.

Ltac run_to_end :=
  repeat match goal with
  | H : context [bind (cv ?w ?op ?x) _] |- _ =>
      destruct (cv w op x) as [?|?]; cbn [bind] in H; [|discriminate H]
  end.

(** A successful call returns exactly thirteen variants, so the list
    handed to the evaluator is never empty. *)
Theorem preprocess_returns_thirteen (w : World) (image_path : string)
    (images : list image) :
  Variants.preprocess_image w image_path = Ok images ->
  List.length images = 13%nat.
Proof.
  unfold Variants.preprocess_image.
  destruct (Variants.preprocess_body w image_path) as [r|e] eqn:E.
  2:{ destruct e; discriminate. }
  intros H. injection H as <-. unfold Variants.preprocess_body in E.
  destruct (negb (path_exists w image_path)); [discriminate|].
  destruct (imread w image_path) as [[img|]|e]; cbn [bind] in E;
    try discriminate.
  destruct (shape2 img) as [height width].
  destruct (OCRConfig.MAX_IMAGE_DIMENSION <? Z.max height width)%Z;
    cbn [bind] in E; run_to_end; injection E as <-; reflexivity.
Qed.

Lemma preprocess_returns_thirteen_witness :
  List.length (repeat Scenarios.page 13) = 13%nat.
Proof.
  apply (preprocess_returns_thirteen Scenarios.helpers_fail "scan.png").
  vm_compute. reflexivity.
Defined.



Lemma max_from_first rest : forall best,
  exists pre post,
    best :: rest = pre ++ max_from best rest :: post /\
    Forall (fun s => (score_of s < score_of (max_from best rest))%Q) pre /\
    Forall (fun s => (score_of s <= score_of (max_from best rest))%Q) post.
Proof.
  induction rest as [|r rest IH]; intros best.
  - exists [], []. repeat split; constructor.
  - simpl max_from.
    destruct (Variants.Qltb (score_of best) (score_of r)) eqn:E.
    + destruct (IH r) as (pre & post & Hd & Hpre & Hpost).
      exists (best :: pre), post. split; [simpl; now rewrite <- Hd|].
      split; [|exact Hpost]. constructor; [|exact Hpre].
      apply Qlt_le_trans with (score_of r); [apply Qltb_true, E|].
      apply max_from_greatest. now left.
    + destruct (IH best) as (pre & post & Hd & Hpre & Hpost).
      destruct pre as [|p pre].
      * simpl in Hd. injection Hd as Hb Hr.
        exists [], (r :: post). split; [simpl; now rewrite <- Hb, <- Hr|].
        split; [constructor|]. constructor; [|exact Hpost].
        rewrite <- Hb. apply Qltb_false, E.
      * simpl in Hd. injection Hd as Hb Hr. subst p.
        exists (best :: r :: pre), post.
        split; [simpl; now rewrite <- Hr|]. split; [|exact Hpost].
        inversion Hpre as [|? ? Hlt Hpre']; subst.
        constructor; [exact Hlt|]. constructor; [|exact Hpre'].
        apply Qle_lt_trans with (score_of best); [apply Qltb_false, E | exact Hlt].
Qed.

Lemma score_all_nth w lang config tmp images : forall i k s,
  nth_error (score_all w lang config tmp i images) k = Some s ->
  index_of s = Ok (i + k)%nat.
Proof.
  induction images as [|img rest IH]; intros i k s H.
  - destruct k; discriminate.
  - destruct k as [|k]; simpl in H.
    + injection H as <-. rewrite Nat.add_0_r.
      apply EvaluateFacts.score_or_zero_index.
    + rewrite Nat.add_succ_r. exact (IH (S i) k s H).
Qed.

(** Ties go to the earliest variant: every variant before the returned
    one has a strictly smaller score. *)
Theorem evaluate_prefers_earlier (w : World) (images : list image)
    (lang : string) (best : image) (info : score_info) (i j : nat)
    (s : score_info) :
  evaluate_preprocessing_quality w images lang = Ok (best, info) ->
  index_of info = Ok i ->
  (j < i)%nat ->
  nth_error (score_all w lang (psm_config lang) temp_eval 0 images) j = Some s ->
  (score_of s < score_of info)%Q.
Proof.
  unfold evaluate_preprocessing_quality.
  destruct images as [|first rest]; [discriminate|].
  destruct (Probe.check_tesseract_availability w lang) as [ti li].
  destruct ti; simpl.
  2:{ intros H Hi. injection H as <- <-. simpl in Hi. discriminate. }
  unfold evaluate_body.
  destruct (if path_exists w temp_eval then remove_file w temp_eval else Ok tt)
    as [u|e]; simpl.
  2:{ intros H Hi. injection H as <- <-. simpl in Hi. discriminate. }
  set (s0 := score_or_zero w lang (psm_config lang) temp_eval 0 first).
  set (rs := score_all w lang (psm_config lang) temp_eval 1 rest).
  destruct (index_of (max_from s0 rs)) as [k|e] eqn:Ek; simpl.
  2:{ intros H Hi. injection H as <- <-. simpl in Hi. discriminate. }
  destruct (nth_error (first :: rest) k) as [img|] eqn:En.
  2:{ intros H Hi. injection H as <- <-. simpl in Hi. discriminate. }
  intros H Hi Hj Hs. injection H as <- <-. rewrite Ek in Hi. injection Hi as <-.
  change (nth_error (s0 :: rs) j = Some s) in Hs.
  destruct (max_from_first rs s0) as (pre & post & Hd & Hpre & _).
  assert (Hk : k = List.length pre).
  { assert (Hn : nth_error (s0 :: rs) (List.length pre)
                 = Some (max_from s0 rs)).
    { rewrite Hd, nth_error_app2 by lia. now rewrite Nat.sub_diag. }
    apply (score_all_nth w lang (psm_config lang) temp_eval (first :: rest) 0)
      in Hn.
    rewrite Ek in Hn. injection Hn as ->. reflexivity. }
  subst k. rewrite Hd, nth_error_app1 in Hs by exact Hj.
  apply nth_error_In in Hs. rewrite Forall_forall in Hpre. exact (Hpre _ Hs).
Qed.

Lemma evaluate_prefers_earlier_witness :
  exists info s,
    evaluate_preprocessing_quality ProcessorScenarios.graded
      [Scenarios.page; ProcessorScenarios.sheet] "eng"
      = Ok (ProcessorScenarios.sheet, info) /\
    index_of info = Ok 1%nat /\
    (score_of s < score_of info)%Q.
Proof.
  eexists. eexists. split; [vm_compute; reflexivity|]. split; [reflexivity|].
  eapply (evaluate_prefers_earlier ProcessorScenarios.graded
            [Scenarios.page; ProcessorScenarios.sheet] "eng"
            ProcessorScenarios.sheet _ 1 0).
  - vm_compute. reflexivity.
  - reflexivity.
  - lia.
  - vm_compute. reflexivity.
Defined.

End PipelineFacts.

(** ** The image processor *)

Module ProcessorFacts.
Import Languages Processor.
Local Open Scope string_scope.

Lemma fold_check_default ls :
  fold_left (fun cur l => if supported l then cur else OCRConfig.DEFAULT_LANG)
            ls OCRConfig.DEFAULT_LANG = OCRConfig.DEFAULT_LANG.
Proof.
  induction ls as [|l ls IH]; [reflexivity|]. simpl.
  destruct (supported l); exact IH.
Qed.

Lemma fold_check ls : forall cur,
  fold_left (fun cur l => if supported l then cur else OCRConfig.DEFAULT_LANG)
            ls cur
  = if forallb supported ls then cur else OCRConfig.DEFAULT_LANG.
Proof.
  induction ls as [|l ls IH]; intros cur; [reflexivity|]. simpl.
  destruct (supported l); simpl; [apply IH | apply fold_check_default].
Qed.

Lemma checked_lang_spec lang :
  checked_lang lang
  = if forallb supported (OCRConfig.split_plus lang) then lang
    else OCRConfig.DEFAULT_LANG.
Proof.
  unfold checked_lang. destruct (OCRConfig.py_in "+" lang) eqn:E.
  - apply fold_check.
  - rewrite (ConfigFacts.split_plus_single _ E). simpl.
    rewrite andb_true_r. reflexivity.
Qed.

Lemma combination_supported lang :
  forallb supported (OCRConfig.split_plus lang) = true ->
  combination lang = lang.
Proof.
  intros H. unfold combination, COMMON_LANGUAGE_COMBINATIONS.
  cbn [OCRConfig.dict_get].
  repeat match goal with
  | |- context [String.eqb ?k lang] =>
      destruct (String.eqb_spec k lang) as [E | _];
      [first [exact E | rewrite <- E in H; vm_compute in H; discriminate H]|]
  end.
  reflexivity.
Qed.

(** The language the processor works with is the requested one when each
    of its '+'-separated parts is a supported code, and the default
    'kor+eng' otherwise; either way every part of it is supported. *)
Theorem process_language (lang : string) :
  combination (checked_lang lang)
  = (if forallb supported (OCRConfig.split_plus lang) then lang
     else OCRConfig.DEFAULT_LANG) /\
  forallb supported (OCRConfig.split_plus (combination (checked_lang lang)))
  = true.
Proof.
  rewrite checked_lang_spec.
  destruct (forallb supported (OCRConfig.split_plus lang)) eqn:E.
  - rewrite (combination_supported _ E). split; [reflexivity | exact E].
  - split; reflexivity.
Qed.


Lemma recognised_has_text data r :
  recognised data = Some r -> Layout.full_text r <> [].
Proof.
  unfold recognised. destruct (has_text data); [|discriminate].
  destruct (filter Layout.keep_text (rows data)) as [|k kept] eqn:Ek;
    [discriminate|].
  intros H. injection H as <-. simpl Layout.full_text.
  assert (Hk : Layout.keep_text k = true).
  { assert (Hin : In k (filter Layout.keep_text (rows data)))
      by (rewrite Ek; now left).
    apply filter_In in Hin. tauto. }
  exact (PipelineFacts.join_head_nonempty [32%N] (Layout.text_of k)
           (map Layout.text_of kept) (PipelineFacts.keep_text_nonempty _ Hk)).
Qed.

(** A layout is returned only on a machine with the engine, it is the
    dict built from a table of the engine, and its [full_text] is not
    empty: a page without text never yields a layout. *)
Theorem process_image_layout_has_text (h : Host) (image_path : string)
    (lang : option string) (r : Layout.layout_result) :
  process_image h image_path lang = Returned (LayoutDict r) ->
  fst (Probe.check_tesseract_availability (host_world h) OCRConfig.DEFAULT_LANG)
    = true /\
  Layout.full_text r <> [] /\
  exists best used data,
    image_to_data_frame (host_world h) (FromImage best) used
      OCRConfig.DEFAULT_CONFIG = Ok data /\
    recognised data = Some r.
Proof.
  unfold process_image, process_body.
  destruct (negb (path_exists (host_world h) (abspath h image_path)));
    [discriminate|].
  destruct (getsize h (abspath h image_path)) as [size|e]; cbn [bind];
    [|discriminate].
  destruct (size =? 0)%Z; [discriminate|].
  destruct (fst (Probe.check_tesseract_availability (host_world h)
                   OCRConfig.DEFAULT_LANG)).
  - set (used := combination (checked_lang _)).
    destruct (Variants.preprocess_image (host_world h) (abspath h image_path))
      as [images|e]; cbn [bind]; [|discriminate].
    destruct (Evaluate.evaluate_preprocessing_quality (host_world h) images used)
      as [[best info]|e]; cbn [bind]; [|discriminate].
    destruct (image_to_data_frame (host_world h) (FromImage best) used
                OCRConfig.DEFAULT_CONFIG) as [data|e] eqn:Ed; cbn [bind];
      [|discriminate].
    destruct (recognised data) as [r'|] eqn:Er; [|discriminate].
    simpl. intros H. injection H as <-.
    split; [reflexivity|]. split; [exact (recognised_has_text _ _ Er)|].
    exists best, used, data. split; assumption.
  - destruct (gemini_attempt h (abspath h image_path)); [discriminate|].
    destruct (Variants.preprocess_image (host_world h) (abspath h image_path))
      as [images|e]; cbn [bind]; [|discriminate].
    destruct (Evaluate.evaluate_preprocessing_quality (host_world h) images _)
      as [[best info]|e]; cbn [bind]; discriminate.
Qed.

Lemma process_image_layout_has_text_witness :
  process_image (ProcessorScenarios.desk Scenarios.english_only 1) "scan.png"
    (Some "eng")
  = Returned (LayoutDict
      {| Layout.full_text := Scenarios.hello;
         Layout.blocks :=
           [{| Layout.text := Scenarios.hello;
               Layout.brect := {| Layout.x := 10; Layout.y := 10;
                                  Layout.width := 50; Layout.height := 12 |};
               Layout.confidence := 95 # 1 |}] |}) /\
  Scenarios.hello <> [].
Proof.
  assert (E : process_image (ProcessorScenarios.desk Scenarios.english_only 1)
                "scan.png" (Some "eng")
              = Returned (LayoutDict
                  {| Layout.full_text := Scenarios.hello;
                     Layout.blocks :=
                       [{| Layout.text := Scenarios.hello;
                           Layout.brect := {| Layout.x := 10; Layout.y := 10;
                                              Layout.width := 50;
                                              Layout.height := 12 |};
                           Layout.confidence := 95 # 1 |}] |}))
    by (vm_compute; reflexivity).
  split; [exact E|].
  exact (proj1 (proj2 (process_image_layout_has_text _ _ _ _ E))).
Defined.

(** The file checks come first: a missing file gives the error string of
    a [FileNotFoundError], an existing file of size 0 that of a
    [ValueError], whatever the engine, the oracle and the language. *)
Theorem process_image_file_checks (h : Host) (image_path : string)
    (lang : option string) :
  (path_exists (host_world h) (abspath h image_path) = false ->
   process_image h image_path lang = ErrorText (Raised FileNotFoundError)) /\
  (path_exists (host_world h) (abspath h image_path) = true ->
   getsize h (abspath h image_path) = Ok 0%Z ->
   process_image h image_path lang = ErrorText (Raised ValueError)).
Proof.
  unfold process_image, process_body. split.
  - intros ->. reflexivity.
  - intros -> ->. reflexivity.
Qed.

(** Without the engine and without a usable answer of the oracle the
    processor returns an error string for every image, also for one
    whose variants and evaluation succeed. *)
Theorem process_image_without_engine (h : Host) (image_path : string)
    (lang : option string) :
  fst (Probe.check_tesseract_availability (host_world h) OCRConfig.DEFAULT_LANG)
    = false ->
  gemini_attempt h (abspath h image_path) = None ->
  exists c, process_image h image_path lang = ErrorText c.
Proof.
  intros Hp Hg. unfold process_image, process_body. rewrite Hp, Hg.
  destruct (negb (path_exists (host_world h) (abspath h image_path)));
    [eexists; reflexivity|].
  destruct (getsize h (abspath h image_path)) as [size|e]; cbn [bind];
    [|eexists; reflexivity].
  destruct (size =? 0)%Z; [eexists; reflexivity|].
  destruct (Variants.preprocess_image (host_world h) (abspath h image_path))
    as [images|e]; cbn [bind]; [|eexists; reflexivity].
  destruct (Evaluate.evaluate_preprocessing_quality (host_world h) images _)
    as [[best info]|e]; cbn [bind]; eexists; reflexivity.
Qed.

Lemma process_image_without_engine_witness :
  process_image (ProcessorScenarios.desk Scenarios.no_engine 1) "scan.png"
    (Some "eng") = ErrorText UnboundResult /\
  exists c,
    process_image (ProcessorScenarios.desk Scenarios.no_engine 1) "scan.png"
      (Some "eng") = ErrorText c.
Proof.
  split; [vm_compute; reflexivity|].
  apply (process_image_without_engine
           (ProcessorScenarios.desk Scenarios.no_engine 1) "scan.png" (Some "eng"));
    reflexivity.
Defined.

Lemma dict_get_in d k v :
  OCRConfig.dict_get d k = Some v -> In v (map snd d).
Proof.
  induction d as [|[k' v'] d IH]; simpl; [discriminate|].
  destruct (String.eqb k' k).
  - intros H. injection H as <-. now left.
  - intros H. right. exact (IH H).
Qed.

Lemma validated_same w lang_code l :
  Cascade.validated w lang_code = Some l -> l = lang_code.
Proof.
  unfold Cascade.validated.
  destruct (snd (Probe.check_tesseract_availability w lang_code));
    [|discriminate].
  intros H. injection H as <-. reflexivity.
Qed.

Lemma from_detected_well_formed w detected l :
  Cascade.from_detected w detected = Some l -> well_formed l.
Proof.
  unfold Cascade.from_detected.
  destruct (OCRConfig.dict_get OCRConfig.LANGDETECT_TO_TESSERACT detected)
    as [tl|] eqn:E; [|discriminate].
  destruct (String.eqb tl ""); [discriminate|].
  intros H. apply validated_same in H. subst l.
  apply dict_get_in in E. simpl in E.
  repeat (destruct E as [<- | E]; [reflexivity|]). contradiction.
Qed.

Lemma max_item_in rest : forall best,
  In (Cascade.max_item best rest) (best :: rest).
Proof.
  induction rest as [|it rest IH]; intros best; simpl; [now left|].
  destruct (snd best <? snd it)%Z.
  - right. apply IH.
  - destruct (IH best) as [H | H]; [left; exact H | right; right; exact H].
Qed.

Lemma pattern_tier_well_formed w combined l :
  Cascade.pattern_tier w combined = Some l -> well_formed l.
Proof.
  unfold Cascade.pattern_tier.
  destruct (existsb _ (Cascade.pattern_counts combined)); [|discriminate].
  intros H. apply validated_same in H. subst l.
  pose proof (max_item_in (tl (Cascade.pattern_counts combined))
                (hd ("", 0%Z) (Cascade.pattern_counts combined))) as Hin.
  set (best := Cascade.max_item _ _) in *.
  assert (Hmain : In (fst best) ["kor"; "eng"; "jpn"; "chi_sim"]).
  { change ["kor"; "eng"; "jpn"; "chi_sim"]
      with (map fst (Cascade.pattern_counts combined)).
    apply in_map. exact Hin. }
  destruct (_ && _);
    simpl in Hmain;
    repeat (destruct Hmain as [<- | Hmain]; [reflexivity|]); contradiction.
Qed.

Lemma oracle_tier_well_formed w image_path l :
  Cascade.oracle_tier w image_path = Some l -> well_formed l.
Proof.
  unfold Cascade.oracle_tier.
  destruct (oracle w) as [ask|]; [|discriminate].
  destruct (ask image_path) as [[r|]|e]; try discriminate.
  destruct (Cascade.succeeded r); [|discriminate].
  destruct (r_language r); [|discriminate]. apply from_detected_well_formed.
Qed.

Lemma detect_tier_well_formed w combined l :
  Cascade.detect_tier w combined = Ok (Some l) -> well_formed l.
Proof.
  unfold Cascade.detect_tier.
  destruct (detect_language w) as [detect|]; [|discriminate].
  destruct (detect combined) as [[r|]|e]; simpl; try discriminate.
  destruct (Cascade.succeeded r); [|discriminate].
  destruct (r_language r); simpl; [|discriminate].
  destruct (r_language_name r); simpl; [|discriminate].
  intros H. injection H as H. eapply from_detected_well_formed, H.
Qed.

Lemma preprocessed_tier_well_formed w image_path l :
  Cascade.preprocessed_tier w image_path = Some l -> well_formed l.
Proof.
  unfold Cascade.preprocessed_tier, Cascade.preprocessed_body.
  destruct (imread w image_path) as [[img|]|e]; simpl; try discriminate.
  2:{ intros H. injection H as <-. reflexivity. }
  destruct (cv w CvtBGR2GRAY img) as [gray|e]; simpl; [|discriminate].
  destruct (cv w ThresholdOtsu gray) as [binary|e]; simpl; [|discriminate].
  destruct (imwrite w _ binary) as [u|e]; simpl; [|discriminate].
  destruct (image_to_string w (FromImage binary) "eng+kor+jpn" "--psm 3")
    as [t|e]; simpl; [|discriminate].
  destruct (if path_exists w _ then remove_file w _ else Ok tt) as [u'|e];
    simpl; [|discriminate].
  destruct t as [|c t]; [discriminate|].
  destruct (detect_language w) as [detect|]; [|discriminate].
  destruct (detect (c :: t)) as [[r|]|e]; simpl; try discriminate.
  destruct (Cascade.succeeded r); [|discriminate].
  destruct (r_language r); simpl; [|discriminate].
  intros H. eapply from_detected_well_formed, H.
Qed.

Lemma cascade_body_well_formed w image_path l :
  Cascade.cascade_body w image_path = Ok l -> well_formed l.
Proof.
  unfold Cascade.cascade_body.
  set (samples := Cascade.sample_texts w image_path).
  assert (Hlast : forall l',
            match (match samples with
                   | [] => Cascade.preprocessed_tier w image_path
                   | _ :: _ => None
                   end) with
            | Some l0 => Ok l0
            | None => Ok OCRConfig.DEFAULT_LANG
            end = Ok l' -> well_formed l').
  { intros l'. destruct samples.
    - destruct (Cascade.preprocessed_tier w image_path) as [l0|] eqn:E.
      + intros H. injection H as <-. eapply preprocessed_tier_well_formed, E.
      + intros H. injection H as <-. reflexivity.
    - intros H. injection H as <-. reflexivity. }
  destruct (join [32%N] samples) as [|c combined]; simpl; [apply Hlast|].
  destruct (Cascade.detect_tier w (c :: combined)) as [[l'|]|e] eqn:Ed; simpl;
    try discriminate.
  - intros H. injection H as <-. eapply detect_tier_well_formed, Ed.
  - destruct (Cascade.pattern_tier w (c :: combined)) as [l'|] eqn:Ep.
    + intros H. injection H as <-. eapply pattern_tier_well_formed, Ep.
    + apply Hlast.
Qed.

(** Every part of the configuration the cascade returns is a supported
    code, so the processor's language checks leave an automatically
    detected configuration as it is. *)
Theorem detected_language_is_kept (w : World) (image_path : string) :
  forallb supported
    (OCRConfig.split_plus (Cascade.detect_ocr_language w image_path)) = true /\
  combination (checked_lang (Cascade.detect_ocr_language w image_path))
  = Cascade.detect_ocr_language w image_path.
Proof.
  assert (H : well_formed (Cascade.detect_ocr_language w image_path)).
  { unfold Cascade.detect_ocr_language.
    destruct (Cascade.oracle_tier w image_path) as [l|] eqn:E.
    - eapply oracle_tier_well_formed, E.
    - destruct (Cascade.cascade_body w image_path) as [l|e] eqn:Ec;
        [|reflexivity].
      eapply cascade_body_well_formed, Ec. }
  split; [exact H|].
  rewrite checked_lang_spec. unfold well_formed in H. rewrite H.
  apply combination_supported, H.
Qed.

End ProcessorFacts.

(** ** Language names and codes *)

Module LanguageFacts.
Import Languages.
Local Open Scope string_scope.

Lemma join_app sep (l1 l2 : list pystr) :
  l1 <> [] -> l2 <> [] ->
  join sep (l1 ++ l2) = (join sep l1 ++ sep ++ join sep l2)%list.
Proof.
  induction l1 as [|a l1 IH]; [congruence|]. intros _ H2.
  destruct l1 as [|b l1].
  - simpl. destruct l2; [congruence | reflexivity].
  - change (join sep ((a :: b :: l1) ++ l2))
      with (a ++ sep ++ join sep ((b :: l1) ++ l2))%list.
    rewrite IH by (congruence || exact H2).
    change (join sep (a :: b :: l1)) with (a ++ sep ++ join sep (b :: l1))%list.
    rewrite <- !app_assoc. reflexivity.
Qed.

Lemma get_language_name_join x :
  get_language_name x
  = join [32; 43; 32]%N (map name_or_code (OCRConfig.split_plus x)).
Proof.
  unfold get_language_name. destruct (OCRConfig.py_in "+" x) eqn:E;
    [reflexivity|].
  rewrite (ConfigFacts.split_plus_single _ E). reflexivity.
Qed.

(** The display name of a configuration joined with '+' is the name of
    the left side, ' + ', and the name of the right side. *)
Theorem get_language_name_combined (a b : string) :
  get_language_name (a ++ String "+" b)
  = (get_language_name a ++ [32; 43; 32]%N ++ get_language_name b)%list.
Proof.
  rewrite !get_language_name_join, ConfigFacts.split_plus_app, map_app.
  apply join_app.
  - pose proof (ConfigFacts.split_plus_nonempty a).
    destruct (OCRConfig.split_plus a); [congruence | discriminate].
  - pose proof (ConfigFacts.split_plus_nonempty b).
    destruct (OCRConfig.split_plus b); [congruence | discriminate].
Qed.

Lemma dict_get_pair d k v :
  OCRConfig.dict_get d k = Some v -> In (k, v) d.
Proof.
  induction d as [|[k' v'] d IH]; simpl; [discriminate|].
  destruct (String.eqb_spec k' k) as [-> | _].
  - intros H. injection H as <-. now left.
  - intros H. right. exact (IH H).
Qed.

(** Normalising a language code twice gives the same as normalising it
    once, for every string. *)
Theorem normalize_lang_code_idempotent (c : string) :
  TranslationConfig.normalize_lang_code (TranslationConfig.normalize_lang_code c)
  = TranslationConfig.normalize_lang_code c.
Proof.
  destruct (OCRConfig.dict_get TranslationConfig.LANG_CODE_MAPPING c)
    as [v|] eqn:E.
  - assert (Hc : TranslationConfig.normalize_lang_code c = v)
      by (unfold TranslationConfig.normalize_lang_code; now rewrite E).
    rewrite Hc. apply dict_get_pair in E. simpl in E.
    repeat (destruct E as [E | E]; [injection E as <- <-; reflexivity|]).
    contradiction.
  - assert (Hc : TranslationConfig.normalize_lang_code c = c)
      by (unfold TranslationConfig.normalize_lang_code; now rewrite E).
    rewrite !Hc. reflexivity.
Qed.

(** The display name of a code does not change when the code is
    normalised first. *)
Theorem language_name_of_normalized (c : string) :
  TranslationConfig.get_language_name (TranslationConfig.normalize_lang_code c)
  = TranslationConfig.get_language_name c.
Proof.
  destruct (OCRConfig.dict_get TranslationConfig.LANG_CODE_MAPPING c)
    as [v|] eqn:E.
  - assert (Hc : TranslationConfig.normalize_lang_code c = v)
      by (unfold TranslationConfig.normalize_lang_code; now rewrite E).
    rewrite Hc. apply dict_get_pair in E. simpl in E.
    repeat (destruct E as [E | E]; [injection E as <- <-; reflexivity|]).
    contradiction.
  - assert (Hc : TranslationConfig.normalize_lang_code c = c)
      by (unfold TranslationConfig.normalize_lang_code; now rewrite E).
    rewrite Hc. reflexivity.
Qed.

(** Every code the detector's configuration supports is understood by
    the cascade: its normalised form has an entry in
    [LANGDETECT_TO_TESSERACT], the pack named there is a supported
    language of the processor, and both modules show the same name. *)
Theorem supported_code_has_pack (c : string) :
  TranslationConfig.is_supported_language c = true ->
  exists pack,
    OCRConfig.dict_get OCRConfig.LANGDETECT_TO_TESSERACT
      (TranslationConfig.normalize_lang_code c) = Some pack /\
    supported pack = true /\
    name_or_code pack = TranslationConfig.get_language_name c.
Proof.
  intros H. unfold TranslationConfig.is_supported_language in H.
  apply orb_true_iff in H.
  assert (Hin : In c (map fst TranslationConfig.SUPPORTED_LANGUAGES
                      ++ map snd TranslationConfig.LANG_CODE_MAPPING)).
  { apply in_or_app. destruct H as [H | H]; [left | right];
      apply existsb_exists in H; destruct H as (k & Hk & E);
      apply String.eqb_eq in E; subst k; exact Hk. }
  simpl in Hin.
  repeat (destruct Hin as [<- | Hin];
          [eexists; split; [reflexivity | split; reflexivity]|]).
  contradiction.
Qed.

Lemma supported_code_has_pack_witness :
  exists pack,
    OCRConfig.dict_get OCRConfig.LANGDETECT_TO_TESSERACT
      (TranslationConfig.normalize_lang_code "zh-cn") = Some pack /\
    supported pack = true /\
    name_or_code pack = TranslationConfig.get_language_name "zh-cn".
Proof.
  apply (supported_code_has_pack "zh-cn"). reflexivity.
Defined.

End LanguageFacts.

(** ** Further facts on the text normalizer *)

Module NormalizerMore.
Import Normalizer TextShape NormalizerFacts.
Local Open Scope N_scope.

(** The cleaned text neither starts nor ends with whitespace, and it
    holds no two adjacent whitespace characters, whatever the NFC
    normalisation does. *)
Theorem clean_ocr_text_shape (nfc : pystr -> pystr) (x : pystr) :
  starts_ws (clean_ocr_text nfc x) = false /\
  ends_ws (clean_ocr_text nfc x) = false /\
  isolated (clean_ocr_text nfc x) = true.
Proof.
  destruct x as [|c t]; [repeat split; reflexivity|].
  assert (E : clean_ocr_text nfc (c :: t) = after_nfc (nfc (c :: t)))
    by reflexivity.
  rewrite E. exact (after_nfc_tidy (nfc (c :: t))).
Qed.

Lemma subst1_fixed c d : In d (subst1 c) -> subst1 d = [d].
Proof.
  intros Hd. pose proof (subst_ok_all c) as H. unfold subst_ok in H.
  apply andb_true_iff in H. destruct H as [_ H].
  rewrite forallb_forall in H. specialize (H _ Hd).
  destruct (subst1 d) as [|d' [|? ?]]; [discriminate H| |discriminate H].
  apply N.eqb_eq in H. subst d'. reflexivity.
Qed.

Lemma after_nfc_chars_fixed s old : In old (after_nfc s) -> subst1 old = [old].
Proof.
  intros Hx. rewrite after_nfc_eq, apply_replacements_flat in Hx.
  apply in_flat_map in Hx. destruct Hx as (c' & _ & Hc').
  apply subst1_fixed in Hc'. exact Hc'.
Qed.

Lemma replaced_not_fixed old new :
  In (old, new) replacements -> subst1 old = [old] -> new <> [old] -> False.
Proof.
  intros Hin Hc' Hne. unfold replacements in Hin. cbn [In] in Hin.
  repeat (destruct Hin as [E | Hin];
          [injection E as <- <-;
           match type of Hne with
           | ?n <> [?k] =>
               assert (Hs : subst1 k = n) by (vm_compute; reflexivity);
               rewrite Hs in Hc'; exact (Hne Hc')
           end|]).
  contradiction.
Qed.

(** No character that the replacement table maps to something else is
    left in the cleaned text. *)
Theorem clean_ocr_text_replaces_all (nfc : pystr -> pystr) (x : pystr)
    (old : codepoint) (new : pystr) :
  In (old, new) replacements -> new <> [old] ->
  ~ In old (clean_ocr_text nfc x).
Proof.
  intros Hin Hne Hx. destruct x as [|c t]; [exact Hx|].
  assert (E : clean_ocr_text nfc (c :: t) = after_nfc (nfc (c :: t)))
    by reflexivity.
  rewrite E in Hx.
  exact (replaced_not_fixed old new Hin (after_nfc_chars_fixed _ _ Hx) Hne).
Qed.

Lemma clean_ocr_text_replaces_all_witness :
  clean_ocr_text (fun s => s) [97; 160; 8230; 65292; 98]
    = [97; 32; 46; 46; 46; 44; 98] /\
  ~ In 8230 (clean_ocr_text (fun s => s) [97; 160; 8230; 65292; 98]).
Proof.
  split; [vm_compute; reflexivity|].
  apply (clean_ocr_text_replaces_all (fun s => s) [97; 160; 8230; 65292; 98]
           8230 [46; 46; 46]).
  - unfold replacements. cbn [In]. do 13 right. left. reflexivity.
  - discriminate.
Defined.

Lemma subst1_unreplaced c :
  (forall old new, In (old, new) replacements -> new <> [old] -> c <> old) ->
  subst1 c = [c].
Proof.
  intros H. destruct (existsb (N.eqb c) (map fst replacements)) eqn:E.
  - apply existsb_exists in E. destruct E as (k & Hin & Hk).
    apply N.eqb_eq in Hk. subst k.
    unfold replacements in Hin. cbn [map fst In] in Hin.
    repeat (destruct Hin as [E | Hin];
            [rewrite <- E in *;
             first [vm_compute; reflexivity
                   | exfalso; refine (H _ _ _ _ eq_refl);
                     [unfold replacements; cbn [In];
                      repeat (first [left; reflexivity | right])
                     | intros E'; discriminate E']]|]).
    contradiction.
  - apply fold_replace_nonkey, E.
Qed.

Lemma flat_subst_unreplaced s :
  (forall c, In c s -> subst1 c = [c]) -> flat_map subst1 s = s.
Proof.
  induction s as [|c t IH]; [reflexivity|]. intros H. cbn [flat_map].
  rewrite (H c (or_introl eq_refl)), IH; [reflexivity|].
  intros d Hd. apply H. right. exact Hd.
Qed.

(** A text that is NFC-normalised, trimmed, without adjacent whitespace
    and without any character the table replaces is returned unchanged:
    these are the texts the function leaves alone. *)
Theorem clean_ocr_text_fixed (nfc : pystr -> pystr) (s : pystr) :
  nfc s = s ->
  starts_ws s = false -> ends_ws s = false -> isolated s = true ->
  (forall old new, In (old, new) replacements -> new <> [old] -> ~ In old s) ->
  clean_ocr_text nfc s = s.
Proof.
  intros Hn H1 H2 H3 Hr. destruct s as [|c t]; [reflexivity|].
  assert (E : clean_ocr_text nfc (c :: t) = after_nfc (nfc (c :: t)))
    by reflexivity.
  rewrite E, Hn, after_nfc_eq.
  rewrite (sub_crlf_id _ H3), (strip_id _ H1 H2), (collapse_id _ H3).
  rewrite apply_replacements_flat. apply flat_subst_unreplaced.
  intros d Hd. apply subst1_unreplaced. intros old new Hin Hne Heq.
  subst d. exact (Hr old new Hin Hne Hd).
Qed.

Lemma clean_ocr_text_fixed_witness :
  clean_ocr_text (fun s => s) [97; 32; 98; 10; 99] = [97; 32; 98; 10; 99].
Proof.
  apply (clean_ocr_text_fixed (fun s => s) [97; 32; 98; 10; 99]).
  - reflexivity.
  - reflexivity.
  - reflexivity.
  - reflexivity.
  - intros old new Hin Hne Hs. unfold replacements in Hin. cbn [In] in Hin.
    cbn [In] in Hs.
    repeat (destruct Hin as [E | Hin];
            [injection E as <- _;
             repeat (destruct Hs as [E' | Hs]; [discriminate E'|]);
             exact Hs|]).
    exact Hin.
Defined.

End NormalizerMore.

(** ** MSER region detection *)

Module MserFacts.
Import Mser.
Local Open Scope Z_scope.

Lemma aspect_ok_int a b :
  aspect_ok a b = true -> 0 < b /\ a < MAX_ASPECT_RATIO * b.
Proof.
  unfold aspect_ok. destruct (0 <? b) eqn:Eb; [|discriminate].
  apply Z.ltb_lt in Eb. intros H. split; [exact Eb|].
  apply PipelineFacts.Qltb_true in H.
  assert (HbQ : (0 < inject_Z b)%Q) by (apply EvaluateFacts.inject_Z_pos, Eb).
  assert (Hm : (inject_Z a < inject_Z MAX_ASPECT_RATIO * inject_Z b)%Q).
  { assert (E : (inject_Z a == inject_Z a / inject_Z b * inject_Z b)%Q).
    { field. intros E0. rewrite E0 in HbQ. apply (Qlt_irrefl _ HbQ). }
    rewrite E. apply Qmult_lt_compat_r; assumption. }
  rewrite <- inject_Z_mult in Hm. rewrite <- Zlt_Qlt in Hm. exact Hm.
Qed.

Lemma mark_kept h : forall rects canvas out regions,
  mark h canvas rects = Ok (out, regions) ->
  regions = filter keeps rects.
Proof.
  induction rects as [|r rest IH]; intros cv0 out regions H; simpl in H.
  - injection H as _ <-. reflexivity.
  - simpl. destruct (keeps r).
    + destruct (draw_rectangle h cv0 r) as [drawn|e]; simpl in H; [|discriminate].
      destruct (mark h drawn rest) as [[final text_regions]|e] eqn:E;
        simpl in H; [|discriminate].
      injection H as _ <-. f_equal. exact (IH _ _ _ E).
    + exact (IH _ _ _ H).
Qed.

(** Every region [detect_mser_regions] returns is more than 3 and less
    than 100 wide, more than 8 and less than 100 high, and less than ten
    times as wide as high and as high as wide; the regions are rectangles
    OpenCV reported, in their order. *)
Theorem mser_regions_within_bounds (h : Host) (img out : image)
    (regions : list Regions.region) :
  detect_mser_regions h img = Ok (out, regions) ->
  Forall (fun r => let '(x, y, rw, rh) := r in
                   3 < rw < 100 /\ 8 < rh < 100 /\
                   rw < 10 * rh /\ rh < 10 * rw) regions /\
  (regions = [] \/
   exists gray rects, bounding_rects h gray = Ok rects /\
                      regions = filter keeps rects).
Proof.
  unfold detect_mser_regions. destruct (mser_body h img) as [[o rs]|e] eqn:E.
  - intros H. injection H as <- <-. unfold mser_body in E.
    destruct (if is_color img then cv (host_world h) CvtBGR2GRAY img else Ok img)
      as [gray|e]; cbn [bind] in E; [|discriminate].
    destruct (bounding_rects h gray) as [rects|e] eqn:Er; cbn [bind] in E;
      [|discriminate].
    destruct (canvas h img gray) as [c0|e]; cbn [bind] in E; [|discriminate].
    apply mark_kept in E. subst rs. split.
    + apply Forall_forall. intros [[[x y] rw] rh] Hin.
      apply filter_In in Hin. destruct Hin as [_ Hk]. unfold keeps in Hk.
      repeat (apply andb_true_iff in Hk; destruct Hk as [Hk ?]).
      repeat match goal with
      | H : (_ <? _) = true |- _ => apply Z.ltb_lt in H
      | H : aspect_ok _ _ = true |- _ => apply aspect_ok_int in H
      end.
      unfold MIN_REGION_HEIGHT, MIN_REGION_WIDTH, MAX_REGION_HEIGHT,
        MAX_REGION_WIDTH, MAX_ASPECT_RATIO in *. lia.
    + right. exists gray, rects. split; [exact Er | reflexivity].
  - destruct (is_color img).
    + intros H. injection H as _ <-. split; [constructor | now left].
    + destruct (gray_to_bgr h img); simpl; [|discriminate].
      intros H. injection H as _ <-. split; [constructor | now left].
Qed.

Lemma mser_regions_within_bounds_witness :
  detect_mser_regions
    (finder Scenarios.blank_page [(0, 0, 20, 10); (5, 5, 2, 50); (1, 1, 99, 9)])
    Scenarios.page
  = Ok (Scenarios.page, [(0, 0, 20, 10)]) /\
  Forall (fun r => let '(x, y, rw, rh) := r in
                   3 < rw < 100 /\ 8 < rh < 100 /\
                   rw < 10 * rh /\ rh < 10 * rw) [(0, 0, 20, 10)].
Proof.
  assert (E : detect_mser_regions
                (finder Scenarios.blank_page
                   [(0, 0, 20, 10); (5, 5, 2, 50); (1, 1, 99, 9)])
                Scenarios.page
              = Ok (Scenarios.page, [(0, 0, 20, 10)]))
    by (vm_compute; reflexivity).
  split; [exact E|].
  exact (proj1 (mser_regions_within_bounds _ _ _ _ E)).
Defined.

End MserFacts.
